(** * fontbakery.callable: the check / condition wrapper core

    A shallow embedding of [Lib/fontbakery/callable.py] and the properties
    its specification states about it.

    Python objects are modelled as follows.
    - A function object is a record carrying the attributes the module reads:
      [__name__], the result of [inspect.getdoc], the ordered parameter
      mapping of [inspect.signature], a reference to its [__globals__]
      dictionary, and its code (a transformer of the store of dictionaries).
    - Dictionaries that are mutated and shared (module globals, instance
      [__dict__]s) live in a store indexed by references; class namespaces
      live in a second store.
    - Effects are threaded through a small state-and-exception monad whose
      state survives a raised exception, as in Python.                      *)

From Stdlib Require Import Ascii String.
From stdpp Require Import gmap strings list fin_maps.

(* ===================================================================== *)
(** ** Python values, exceptions                                           *)
(* ===================================================================== *)

(** References into the stores (dictionaries, classes). *)
Abbreviation ref := positive.

Inductive pyval :=
  | VNone
  | VBool (b : bool)
  | VInt (n : Z)
  | VStr (s : string)
  | VInstance (cls : ref) (dict : ref).

Global Instance pyval_eq_dec : EqDecision pyval.
Proof. solve_decision. Defined.

Inductive exn :=
  | TypeError (msg : string)
  | IndexError (msg : string)
  | AttributeError (msg : string)
  | Raised (msg : string).

Global Instance exn_eq_dec : EqDecision exn.
Proof. solve_decision. Defined.

Inductive Result (A : Type) :=
  | Ok (a : A)
  | Err (e : exn).
Arguments Ok {A} a.
Arguments Err {A} e.

Definition is_ok {A} (r : Result A) : bool :=
  match r with Ok _ => true | Err _ => false end.

(** The line feed character and Python's [str] helpers used by the module. *)
Definition LF : ascii := "010"%char.
Definition NL : string := String LF EmptyString.

(** [s.split("\n")]: always at least one field. *)
Fixpoint split_lines (s : string) : list string :=
  match s with
  | EmptyString => [EmptyString]
  | String c s' =>
      if Ascii.eqb c LF then EmptyString :: split_lines s'
      else match split_lines s' with
           | [] => [String c EmptyString]
           | l :: ls => String c l :: ls
           end
  end.

(** [sep.join(parts)]. *)
Definition join (sep : string) (parts : list string) : string :=
  String.concat sep parts.

(** Truthiness of a [str]: the empty string is falsy. *)
Definition str_truthy (s : string) : bool :=
  match s with EmptyString => false | String _ _ => true end.

(** Truthiness of an optional [str] argument ([None] or a string). *)
Definition truthy (o : option string) : bool :=
  match o with None => false | Some s => str_truthy s end.

(** [needle in haystack] for strings. *)
Fixpoint occurs (needle hay : string) : bool :=
  String.prefix needle hay ||
  match hay with
  | EmptyString => false
  | String _ hay' => occurs needle hay'
  end.

(* ===================================================================== *)
(** ** The part of [inspect] the module relies on                          *)
(* ===================================================================== *)

Module inspect.

Inductive ParameterKind :=
  | POSITIONAL_ONLY
  | POSITIONAL_OR_KEYWORD
  | VAR_POSITIONAL
  | KEYWORD_ONLY
  | VAR_KEYWORD.

Global Instance ParameterKind_eq_dec : EqDecision ParameterKind.
Proof. solve_decision. Defined.

(** [inspect.Parameter] ([Parameter] is reserved in Rocq).
    [param_default = None] stands for [inspect.Parameter.empty]; a default
    of Python's [None] is [Some VNone]. *)
Record Param := {
  param_default : option pyval;
  param_kind : ParameterKind
}.

(** [sig.parameters.items()]: an ordered mapping from names to
    parameters, in declaration order. *)
Definition Signature := list (string * Param).

(** Keys of a mapping are distinct. *)
Definition distinct_names (sig : Signature) : Prop := NoDup (sig.*1).

Global Instance distinct_names_dec sig : Decision (distinct_names sig).
Proof. unfold distinct_names. apply _. Defined.

End inspect.
Import inspect.

(** [param.default is not inspect.Parameter.empty] *)
Definition has_default (p : Param) : bool :=
  match param_default p with Some _ => true | None => false end.

(** [param.kind in (POSITIONAL_OR_KEYWORD, POSITIONAL_ONLY)] *)
Definition kind_positional (p : Param) : bool :=
  match param_kind p with
  | POSITIONAL_OR_KEYWORD | POSITIONAL_ONLY => true
  | _ => false
  end.

(* ===================================================================== *)
(** ** Stores, function objects, the effect monad                          *)
(* ===================================================================== *)

(** Dictionary objects with string keys: module globals, instance
    [__dict__]s. *)
Abbreviation Store := (gmap ref (gmap string pyval)).

Record function := {
  __name__ : string;
  (** the value of [inspect.getdoc(func)] *)
  getdoc : option string;
  (** [inspect.signature(func).parameters] *)
  parameters : Signature;
  (** the dictionary the function resolves its global names in *)
  __globals__ : ref;
  (** running the body on positional arguments *)
  code : Store -> list pyval -> Store * Result pyval
}.

(** A [functools.cached_property] object: the wrapped function and the
    attribute name given by [__set_name__]. *)
Record cached_property := {
  cp_func : function;
  cp_attrname : option string
}.

Record World := {
  store : Store;
  classes : gmap ref (gmap string cached_property);
  (** the functions invoked so far, oldest first *)
  trace : list function
}.

Definition M (A : Type) : Type := World -> Result A * World.

Definition ret {A} (a : A) : M A := fun w => (Ok a, w).
Definition raise {A} (e : exn) : M A := fun w => (Err e, w).
Definition bind {A B} (m : M A) (k : A -> M B) : M B :=
  fun w => match m w with
           | (Ok a, w') => k a w'
           | (Err e, w') => (Err e, w')
           end.

Notation "x <- m ;; k" := (bind m (fun x => k))
  (at level 100, m at next level, right associativity).
Notation "m ;;; k" := (bind m (fun _ => k))
  (at level 100, right associativity).

(** Calling a function object: the call is recorded, the body runs on the
    current store. *)
Definition call (f : function) (args : list pyval) : M pyval :=
  fun w =>
    let '(st', r) := code f (store w) args in
    (r, {| store := st'; classes := classes w;
           trace := trace w ++ [f] |}).

(** The dictionary behind a reference (a missing one reads as empty). *)
Definition dict_at (st : Store) (r : ref) : gmap string pyval :=
  default ∅ (st !! r).

(* ===================================================================== *)
(** ** class FontbakeryCallable                                            *)
(* ===================================================================== *)

(** The instance state of a wrapper.  [update_wrapper(self, func)] sets
    [__wrapped__] and lets the wrapper present the name, module and
    docstring of [func]; the three [cached_*] fields are the entries the
    [cached_property] descriptors write into the instance [__dict__]. *)
Record FontbakeryCallable := {
  _args : option (list string);
  _mandatoryArgs : option (list string);
  _optionalArgs : option (list string);
  __wrapped__ : function;
  cached_args : option (list string);
  cached_mandatoryArgs : option (list string);
  cached_optionalArgs : option (list string)
}.

Definition FontbakeryCallable__init__ (func : function) : FontbakeryCallable :=
  {| _args := None; _mandatoryArgs := None; _optionalArgs := None;
     __wrapped__ := func;
     cached_args := None; cached_mandatoryArgs := None;
     cached_optionalArgs := None |}.

(** [inspect.signature(self, follow_wrapped=True)]: the wrapper is unwrapped
    through [__wrapped__]. *)
Definition signature (self : FontbakeryCallable) : Signature :=
  parameters (__wrapped__ self).

(** The [for] loop of [mandatoryArgs]; [args] is the list being appended
    to. *)
Fixpoint mandatory_loop (items : Signature) (args : list string)
  : list string :=
  match items with
  | [] => args
  | (name, param) :: items' =>
      if has_default param || negb (kind_positional param)
      then args                                        (* break *)
      else mandatory_loop items' (args ++ [name])
  end.

(** The [for] loop of [optionalArgs]. *)
Fixpoint optional_loop (items : Signature) (args : list string)
  : list string :=
  match items with
  | [] => args
  | (name, param) :: items' =>
      if negb (has_default param)
      then optional_loop items' args                   (* continue *)
      else if negb (kind_positional param)
      then args                                        (* break *)
      else optional_loop items' (args ++ [name])
  end.

(** [functools.cached_property.__get__]: return the entry of the instance
    dictionary when there is one, else compute the value and store it. *)
Definition cached_get {S A} (lookup : S -> option A) (set : A -> S -> S)
    (compute : S -> A * S) (self : S) : A * S :=
  match lookup self with
  | Some val => (val, self)
  | None => let '(val, self') := compute self in (val, set val self')
  end.

Definition set_cached_mandatoryArgs v (self : FontbakeryCallable) :=
  {| _args := _args self; _mandatoryArgs := _mandatoryArgs self;
     _optionalArgs := _optionalArgs self; __wrapped__ := __wrapped__ self;
     cached_args := cached_args self; cached_mandatoryArgs := Some v;
     cached_optionalArgs := cached_optionalArgs self |}.

Definition set_cached_optionalArgs v (self : FontbakeryCallable) :=
  {| _args := _args self; _mandatoryArgs := _mandatoryArgs self;
     _optionalArgs := _optionalArgs self; __wrapped__ := __wrapped__ self;
     cached_args := cached_args self;
     cached_mandatoryArgs := cached_mandatoryArgs self;
     cached_optionalArgs := Some v |}.

Definition set_cached_args v (self : FontbakeryCallable) :=
  {| _args := _args self; _mandatoryArgs := _mandatoryArgs self;
     _optionalArgs := _optionalArgs self; __wrapped__ := __wrapped__ self;
     cached_args := Some v;
     cached_mandatoryArgs := cached_mandatoryArgs self;
     cached_optionalArgs := cached_optionalArgs self |}.

Definition mandatoryArgs : FontbakeryCallable -> list string * FontbakeryCallable :=
  cached_get cached_mandatoryArgs set_cached_mandatoryArgs
    (fun self => (mandatory_loop (signature self) [], self)).

Definition optionalArgs : FontbakeryCallable -> list string * FontbakeryCallable :=
  cached_get cached_optionalArgs set_cached_optionalArgs
    (fun self => (optional_loop (signature self) [], self)).

Definition args : FontbakeryCallable -> list string * FontbakeryCallable :=
  cached_get cached_args set_cached_args
    (fun self =>
       let '(m, self1) := mandatoryArgs self in
       let '(o, self2) := optionalArgs self1 in
       (m ++ o, self2)).

(** [__call__]: forwards to the wrapped function. *)
Definition FontbakeryCallable__call__ (self : FontbakeryCallable)
    (a : list pyval) : M pyval :=
  call (__wrapped__ self) a.

(** [inject_globals]: [self.__wrapped__.__globals__.update(new_globals)].
    [dict.update] lets the new entries win over the old ones. *)
Definition inject_globals (self : FontbakeryCallable)
    (new_globals : gmap string pyval) : M unit :=
  fun w =>
    let g := __globals__ (__wrapped__ self) in
    (Ok tt,
     {| store := <[g := new_globals ∪ dict_at (store w) g]> (store w);
        classes := classes w; trace := trace w |}).

(** What a client can do with a wrapper: read one of the three cached
    attributes, inject globals, call it.  [run] threads the wrapper's
    instance state and the world through a sequence of such uses. *)
Inductive attribute := Aargs | AmandatoryArgs | AoptionalArgs.

Definition getattr (self : FontbakeryCallable) (a : attribute)
  : list string * FontbakeryCallable :=
  match a with
  | Aargs => args self
  | AmandatoryArgs => mandatoryArgs self
  | AoptionalArgs => optionalArgs self
  end.

Inductive use :=
  | Get (a : attribute)
  | Inject (new_globals : gmap string pyval)
  | Call (a : list pyval).

Definition step (sw : FontbakeryCallable * World) (u : use)
  : FontbakeryCallable * World :=
  let '(self, w) := sw in
  match u with
  | Get a => ((getattr self a).2, w)
  | Inject new_globals => (self, (inject_globals self new_globals w).2)
  | Call a => (self, (FontbakeryCallable__call__ self a w).2)
  end.

Definition run (history : list use) (sw : FontbakeryCallable * World)
  : FontbakeryCallable * World :=
  fold_left step history sw.

(** [LOAD_GLOBAL name] executed by code whose globals are the dictionary
    [g]. *)
Definition load_global (g : ref) (name : string) (st : Store)
  : Result pyval :=
  match dict_at st g !! name with
  | Some v => Ok v
  | None => Err (Raised ("NameError: " +:+ name))
  end.

(** Example signatures of the specification. *)
Definition pos_or_kw (d : option pyval) : Param :=
  {| param_default := d; param_kind := POSITIONAL_OR_KEYWORD |}.

(** [(a, b, c=1, d=2)] *)
Definition sig_a_b_c1_d2 : Signature :=
  [("a", pos_or_kw None); ("b", pos_or_kw None);
   ("c", pos_or_kw (Some (VInt 1))); ("d", pos_or_kw (Some (VInt 2)))].

(** [(a, *, b)] *)
Definition sig_a_star_b : Signature :=
  [("a", pos_or_kw None);
   ("b", {| param_default := None; param_kind := KEYWORD_ONLY |})].

(** A function whose body is [return hello], defined in the module whose
    globals are [g]. *)
Definition return_hello (g : ref) : function :=
  {| __name__ := "return_hello"; getdoc := None; parameters := [];
     __globals__ := g;
     code := fun st _ => (st, load_global g "hello" st) |}.

(* ===================================================================== *)
(** ** get_doc_desc                                                        *)
(* ===================================================================== *)

(** [while len(doclines) and doclines[0]]: move lines to [description]
    until the first empty line. *)
Fixpoint consume_description (doclines description : list string)
  : list string * list string :=
  match doclines with
  | [] => (doclines, description)
  | l :: doclines' =>
      if str_truthy l
      then consume_description doclines' (description ++ [l])
      else (doclines, description)
  end.

(** [while len(doclines) and not doclines[0]]: drop preceding empty
    lines. *)
Fixpoint drop_empty_lines (doclines : list string) : list string :=
  match doclines with
  | [] => doclines
  | l :: doclines' =>
      if negb (str_truthy l) then drop_empty_lines doclines' else doclines
  end.

Definition get_doc_desc (func : function)
    (description documentation : option string)
  : option string * option string :=
  (* doc = inspect.getdoc(func) or the empty string *)
  let doc := if truthy (getdoc func) then default EmptyString (getdoc func)
             else EmptyString in
  let doclines := split_lines doc in
  let '(doclines, description) :=
    if negb (truthy description)
    then let '(doclines, description) := consume_description doclines [] in
         (doclines, Some (join " " description))
    else (doclines, description) in
  let doclines := drop_empty_lines doclines in
  let documentation :=
    if negb (truthy documentation) && negb (length doclines =? 0)
    then (let joined := join NL doclines in
          if str_truthy joined then Some joined else None)
    else documentation in
  (description, documentation).

(* ===================================================================== *)
(** ** class FontBakeryCheck(FontbakeryCallable)                           *)
(* ===================================================================== *)

(** The arguments of [FontBakeryCheck.__init__] after [checkfunc]. *)
Record check_args := {
  arg_id : string;
  arg_description : option string;
  arg_documentation : option string;
  arg_name : option string;
  arg_conditions : option (list string);
  arg_rationale : option string;
  arg_proposal : option string;
  arg_experimental : bool;
  arg_severity : option Z;
  arg_configs : option (list string);
  arg_misc_metadata : option (list (string * pyval))
}.

(** A call that passes [id], [description] and [documentation] and leaves
    every other argument at its default. *)
Definition with_defaults (id : string) (description documentation : option string)
  : check_args :=
  {| arg_id := id; arg_description := description;
     arg_documentation := documentation; arg_name := None;
     arg_conditions := None; arg_rationale := None; arg_proposal := None;
     arg_experimental := false; arg_severity := None; arg_configs := None;
     arg_misc_metadata := None |}.

Record FontBakeryCheck := {
  callable : FontbakeryCallable;
  id_ : string;
  conditions : list string;
  rationale : option string;
  description : option string;
  documentation : option string;
  configs : option (list string);
  proposal : option string;
  experimental : bool;
  severity : option Z
}.

(** [__init__]; [type_name] is [type(self).__name__], the name of the class
    being instantiated ([FontBakeryCheck] or a subclass). *)
Definition FontBakeryCheck__init__ (type_name : string)
    (checkfunc : function) (a : check_args) : Result FontBakeryCheck :=
  let super := FontbakeryCallable__init__ checkfunc in
  let '(desc, docu) :=
    get_doc_desc checkfunc (arg_description a) (arg_documentation a) in
  let self :=
    {| callable := super;
       id_ := arg_id a;
       conditions := default [] (arg_conditions a);
       rationale := arg_rationale a;
       description := desc;
       documentation := docu;
       configs := arg_configs a;
       proposal := arg_proposal a;
       experimental := arg_experimental a;
       severity := arg_severity a |} in
  if negb (truthy (description self))
  then Err (TypeError (type_name +:+ " needs a description."))
  else Ok self.

(** [check]: the decorator factory; its arguments are those of
    [FontBakeryCheck] after [checkfunc]. *)
Definition check (a : check_args) : function -> Result FontBakeryCheck :=
  fun checkfunc => FontBakeryCheck__init__ "FontBakeryCheck" checkfunc a.

(* ===================================================================== *)
(** ** condition                                                           *)
(* ===================================================================== *)

(** The objects [condition] may be handed. *)
Inductive pyobj :=
  | OClass (name : string) (c : ref)
  | OFunction (f : function)
  | OValue (v : pyval).

(** [o.__name__] *)
Definition obj_name (o : pyobj) : Result string :=
  match o with
  | OClass name _ => Ok name
  | OFunction f => Ok (__name__ f)
  | OValue _ => Err (AttributeError "__name__")
  end.

Definition class_dict (w : World) (c : ref) : gmap string cached_property :=
  default ∅ (classes w !! c).

(** [setattr(cls, name, prop)] on a class. *)
Definition setattr_class (c : ref) (name : string) (prop : cached_property)
  : M unit :=
  fun w =>
    (Ok tt,
     {| store := store w;
        classes := <[c := <[name := prop]> (class_dict w c)]> (classes w);
        trace := trace w |}).

(** [cached_property.__set_name__(owner, name)] on a fresh property. *)
Definition __set_name__ (prop : cached_property) (name : string)
  : Result cached_property :=
  match cp_attrname prop with
  | None => Ok {| cp_func := cp_func prop; cp_attrname := Some name |}
  | Some name' =>
      if String.eqb name name' then Ok prop
      else Err (TypeError "Cannot assign the same cached_property to two different names")
  end.

(** The inner [decorator] of [condition(cls)], applied to its positional
    arguments; it ends without a [return] statement. *)
Definition decorator (c : ref) (a : list function) : M pyval :=
  match a with
  | [] => raise (IndexError "tuple index out of range")
  | func :: _ =>
      let prop := {| cp_func := func; cp_attrname := None |} in
      match __set_name__ prop (__name__ func) with
      | Err e => raise e
      | Ok prop =>
          setattr_class c (__name__ func) prop ;;;
          ret VNone
      end
  end.

(** [condition(cls)]: a class passes the [inspect.isclass] test and gets
    its decorator; for anything else the [TypeError] is built from
    [cls.__name__]. *)
Definition condition (cls : pyobj)
  : Result (list function -> M pyval) :=
  match cls with
  | OClass _ c => Ok (decorator c)
  | _ =>
      match obj_name cls with
      | Ok name =>
          Err (TypeError ("Condition " +:+ name +:+ " must be added to a class"))
      | Err e => Err e
      end
  end.

(** [d[name] = val] on the dictionary at [d]. *)
Definition store_attr (d : ref) (name : string) (val : pyval) : M unit :=
  fun w =>
    (Ok tt,
     {| store := <[d := <[name := val]> (dict_at (store w) d)]> (store w);
        classes := classes w; trace := trace w |}).

(** Reading an attribute of an instance whose class namespace holds
    [cached_property] objects (non-data descriptors): the instance
    dictionary is consulted first; otherwise [cached_property.__get__]
    calls the function on the instance and, when it returns, stores the
    value under the attribute name.  Nothing is stored when it raises. *)
Definition cached_property__get__ (prop : cached_property) (cls d : ref)
  : M pyval :=
  match cp_attrname prop with
  | None =>
      raise (TypeError "Cannot use cached_property instance without calling __set_name__ on it.")
  | Some attrname =>
      fun w =>
        match dict_at (store w) d !! attrname with
        | Some val => (Ok val, w)
        | None =>
            (val <- call (cp_func prop) [VInstance cls d] ;;
             store_attr d attrname val ;;;
             ret val) w
        end
  end.

Definition instance_getattr (cls d : ref) (name : string) : M pyval :=
  fun w =>
    match dict_at (store w) d !! name with
    | Some val => (Ok val, w)
    | None =>
        match class_dict w cls !! name with
        | Some prop => cached_property__get__ prop cls d w
        | None => (Err (AttributeError name), w)
        end
    end.

(** Reading the same attribute [n] times; the results in order. *)
Fixpoint read_times (n : nat) (cls d : ref) (name : string) (w : World)
  : list (Result pyval) * World :=
  match n with
  | O => ([], w)
  | S n' =>
      let '(r, w') := instance_getattr cls d name w in
      let '(rs, w'') := read_times n' cls d name w' in
      (r :: rs, w'')
  end.

(** A definition in decorator position, [@dec] over [def f], executed in
    the namespace [ns]: the name of [f] is bound to what [dec(f)]
    returns. *)
Definition decorated_def (dec : list function -> M pyval) (ns : ref)
    (f : function) : M unit :=
  r <- dec [f] ;;
  store_attr ns (__name__ f) r.

(* ===================================================================== *)
(** ** class Disabled, disable                                             *)
(* ===================================================================== *)

Record Disabled := { func : function }.

Definition Disabled__init__ (f : function) : M Disabled :=
  ret {| func := f |}.

Definition disable (f : function) : M Disabled :=
  Disabled__init__ f.

(* ===================================================================== *)
(** ** Notions used to state the properties                                *)
(* ===================================================================== *)

(** A parameter counts as mandatory when it has no default value and is
    positional. *)
Definition mandatory_positional (np : string * Param) : Prop :=
  has_default np.2 = false ∧ kind_positional np.2 = true.

(** The cached entries of a wrapper, when present, are the values the
    loops compute from the signature. *)
Definition cache_ok (self : FontbakeryCallable) : Prop :=
  let m := mandatory_loop (signature self) [] in
  let o := optional_loop (signature self) [] in
  (∀ v, cached_mandatoryArgs self = Some v → v = m)
  ∧ (∀ v, cached_optionalArgs self = Some v → v = o)
  ∧ (∀ v, cached_args self = Some v → v = m ++ o).

(** The documentation string [get_doc_desc] works on. *)
Definition docstring (f : function) : string :=
  default EmptyString (getdoc f).

(** The same call with another [description] argument. *)
Definition with_description (d : option string) (a : check_args)
  : check_args :=
  {| arg_id := arg_id a; arg_description := d;
     arg_documentation := arg_documentation a; arg_name := arg_name a;
     arg_conditions := arg_conditions a; arg_rationale := arg_rationale a;
     arg_proposal := arg_proposal a; arg_experimental := arg_experimental a;
     arg_severity := arg_severity a; arg_configs := arg_configs a;
     arg_misc_metadata := arg_misc_metadata a |}.

(** The message of an exception, and whether it mentions a given name. *)
Definition message (e : exn) : string :=
  match e with
  | TypeError msg | IndexError msg | AttributeError msg | Raised msg => msg
  end.

Definition mentions (e : exn) (name : string) : bool :=
  occurs name (message e).

(** Concrete objects for the examples. *)
Definition empty_world : World :=
  {| store := ∅; classes := ∅; trace := [] |}.

(** A function named [name] with documentation [doc] and signature [sig],
    defined in the module with globals [1], whose body returns [None]. *)
Definition def_function (name : string) (doc : option string)
    (sig : Signature) : function :=
  {| __name__ := name; getdoc := doc; parameters := sig;
     __globals__ := 1%positive;
     code := fun st _ => (st, Ok VNone) |}.

(** A condition function named [isVariableFont]; its body returns
    [True]. *)
Definition isVariableFont : function :=
  {| __name__ := "isVariableFont"; getdoc := None;
     parameters := [("ttFont", pos_or_kw None)];
     __globals__ := 1%positive;
     code := fun st _ => (st, Ok (VBool true)) |}.

(** [condition(cls)(f)]: registering the condition function [f] onto the
    class [cls_name] stored at [c]. *)
Definition register_condition (cls_name : string) (c : ref) (f : function)
  : M pyval :=
  match condition (OClass cls_name c) with
  | Ok dec => dec [f]
  | Err e => raise e
  end.

(** The property [condition] installs for [f]. *)
Definition property_of (f : function) : cached_property :=
  {| cp_func := f; cp_attrname := Some (__name__ f) |}.

(** The documentation string of the specification's example. *)
Definition example_doc : string :=
  "Short desc." +:+ NL +:+ NL +:+
  "Long body line 1." +:+ NL +:+ "Long body line 2.".

(* ===================================================================== *)
(** ** Further notions: well-formed signatures, labels, call counts        *)
(* ===================================================================== *)

(** The order of parameter kinds in a signature. *)
Definition kind_rank (k : ParameterKind) : nat :=
  match k with
  | POSITIONAL_ONLY => 0
  | POSITIONAL_OR_KEYWORD => 1
  | VAR_POSITIONAL => 2
  | KEYWORD_ONLY => 3
  | VAR_KEYWORD => 4
  end.

(** The check [inspect.Signature] makes on its parameters, as a loop over
    them with its two variables: kinds never go down, and among the
    positional parameters none without a default follows one with a
    default. *)
Fixpoint validate_parameters (params : Signature) (top_kind : nat)
    (seen_default : bool) : bool :=
  match params with
  | [] => true
  | (_, param) :: params' =>
      let k := kind_rank (param_kind param) in
      if k <? top_kind then false
      else if kind_positional param
      then if has_default param
           then validate_parameters params' k true
           else if seen_default then false
                else validate_parameters params' k seen_default
      else validate_parameters params' k seen_default
  end.

Definition well_formed (sig : Signature) : bool :=
  validate_parameters sig 0 false.

(** The names of the parameters that satisfy [P], in declaration order. *)
Definition names_where (P : Param -> bool) (sig : Signature) : list string :=
  (List.filter (fun np => P np.2) sig).*1.

(** A parameter at which the loop of [optionalArgs] breaks. *)
Definition defaulted_non_positional (np : string * Param) : bool :=
  has_default np.2 && negb (kind_positional np.2).

(** [__repr__] of a check: [getattr(self, "id", ...)] finds the [id] that
    [FontBakeryCheck.__init__] has set; [type_name] is
    [type(self).__name__]. *)
Definition FontBakeryCheck__repr__ (type_name : string)
    (self : FontBakeryCheck) : string :=
  "<" +:+ type_name +:+ ":" +:+ id_ self +:+ ">".

(** The number of calls among the uses of a wrapper. *)
Definition is_call (u : use) : bool :=
  match u with Call _ => true | _ => false end.

Definition count_calls (history : list use) : nat :=
  length (List.filter is_call history).

(** [(a, b=1, *args, c, d=2, **kw)] *)
Definition sig_mixed : Signature :=
  [("a", pos_or_kw None);
   ("b", pos_or_kw (Some (VInt 1)));
   ("args", {| param_default := None; param_kind := VAR_POSITIONAL |});
   ("c", {| param_default := None; param_kind := KEYWORD_ONLY |});
   ("d", {| param_default := Some (VInt 2); param_kind := KEYWORD_ONLY |});
   ("kw", {| param_default := None; param_kind := VAR_KEYWORD |})].

(** A second function of the module with globals [g]; its body returns
    the global [hello] as well. *)
Definition also_returns_hello (g : ref) : function :=
  {| __name__ := "also_returns_hello"; getdoc := None;
     parameters := [("x", pos_or_kw None)];
     __globals__ := g;
     code := fun st _ => (st, load_global g "hello" st) |}.

(** Another function registered under the name [isVariableFont]; its body
    returns [False]. *)
Definition isVariableFont' : function :=
  {| __name__ := "isVariableFont"; getdoc := None;
     parameters := [("ttFont", pos_or_kw None)];
     __globals__ := 1%positive;
     code := fun st _ => (st, Ok (VBool false)) |}.

(* ===================================================================== *)
(** * Properties                                                           *)
(* ===================================================================== *)

(** ** The argument contract                                               *)

Section ArgumentContract.

Lemma mandatory_loop_acc items acc :
  mandatory_loop items acc = acc ++ mandatory_loop items [].
Proof.
  revert acc. induction items as [|[name param] items IH]; intros acc; simpl.
  - by rewrite app_nil_r.
  - destruct (has_default param || negb (kind_positional param)).
    + by rewrite app_nil_r.
    + rewrite (IH (acc ++ [name])), (IH [name]). by rewrite <- app_assoc.
Qed.

Lemma optional_loop_acc items acc :
  optional_loop items acc = acc ++ optional_loop items [].
Proof.
  revert acc. induction items as [|[name param] items IH]; intros acc; simpl.
  - by rewrite app_nil_r.
  - destruct (has_default param); simpl; [|apply IH].
    destruct (kind_positional param); simpl.
    + rewrite (IH (acc ++ [name])), (IH [name]). by rewrite <- app_assoc.
    + by rewrite app_nil_r.
Qed.

Lemma mandatory_loop_prefix items :
  ∃ pre rest,
    items = pre ++ rest
    ∧ Forall mandatory_positional pre
    ∧ match rest with
      | [] => True
      | np :: _ => ¬ mandatory_positional np
      end
    ∧ mandatory_loop items [] = pre.*1.
Proof.
  induction items as [|[name param] items (pre & rest & -> & Hpre & Hrest & IH)].
  - exists [], []. repeat split; auto.
  - simpl. destruct (has_default param) eqn:Hd; simpl.
    { exists [], ((name, param) :: pre ++ rest). repeat split; auto.
      intros [H _]. simpl in H. congruence. }
    destruct (kind_positional param) eqn:Hk; simpl.
    + exists ((name, param) :: pre), rest. repeat split; auto.
      * constructor; [by split|done].
      * rewrite mandatory_loop_acc, IH. done.
    + exists [], ((name, param) :: pre ++ rest). repeat split; auto.
      intros [_ H]. simpl in H. congruence.
Qed.

Lemma mandatory_loop_elem items n :
  n ∈ mandatory_loop items [] →
  ∃ p, (n, p) ∈ items ∧ has_default p = false.
Proof.
  induction items as [|[name param] items IH]; simpl.
  - by intros ?%elem_of_nil.
  - destruct (has_default param) eqn:Hd; simpl; [by intros ?%elem_of_nil|].
    destruct (kind_positional param); simpl; [|by intros ?%elem_of_nil].
    rewrite mandatory_loop_acc. intros [->%list_elem_of_singleton|H]%elem_of_app.
    + exists param. split; [left|done].
    + destruct (IH H) as (p & ? & ?). exists p. split; [by right|done].
Qed.

Lemma optional_loop_elem items n :
  n ∈ optional_loop items [] →
  ∃ p, (n, p) ∈ items ∧ has_default p = true.
Proof.
  induction items as [|[name param] items IH]; simpl.
  - by intros ?%elem_of_nil.
  - destruct (has_default param) eqn:Hd; simpl.
    + destruct (kind_positional param); simpl; [|by intros ?%elem_of_nil].
      rewrite optional_loop_acc.
      intros [->%list_elem_of_singleton|H]%elem_of_app.
      * exists param. split; [left|done].
      * destruct (IH H) as (p & ? & ?). exists p. split; [by right|done].
    + intros H. destruct (IH H) as (p & ? & ?). exists p. split; [by right|done].
Qed.

Lemma distinct_names_functional (sig : Signature) n p q :
  distinct_names sig → (n, p) ∈ sig → (n, q) ∈ sig → p = q.
Proof.
  unfold distinct_names.
  induction sig as [|[n0 p0] sig IH]; csimpl.
  - by intros _ ?%elem_of_nil.
  - intros [Hnotin Hnd]%NoDup_cons Hp Hq.
    assert (Hfst : ∀ r, (n, r) ∈ sig → n0 ≠ n).
    { intros r Hr ->. apply Hnotin, list_elem_of_fmap. by exists (n, r). }
    apply elem_of_cons in Hp as [Hp|Hp]; apply elem_of_cons in Hq as [Hq|Hq].
    + congruence.
    + injection Hp as -> ->. by destruct (Hfst q Hq).
    + injection Hq as -> ->. by destruct (Hfst p Hp).
    + by apply IH.
Qed.

Lemma cache_ok_init f : cache_ok (FontbakeryCallable__init__ f).
Proof. repeat split; simpl; intros; discriminate. Qed.

Lemma mandatoryArgs_spec self :
  cache_ok self →
  (mandatoryArgs self).1 = mandatory_loop (signature self) []
  ∧ __wrapped__ (mandatoryArgs self).2 = __wrapped__ self
  ∧ cache_ok (mandatoryArgs self).2.
Proof.
  intros Hok. pose proof Hok as (Hm & Ho & Ha). unfold mandatoryArgs, cached_get.
  destruct (cached_mandatoryArgs self) as [v|] eqn:E; simpl.
  - split; [by apply Hm|]. done.
  - split; [done|]. split; [done|].
    repeat split; simpl; unfold signature; simpl; auto.
    intros v [= <-]. done.
Qed.

Lemma optionalArgs_spec self :
  cache_ok self →
  (optionalArgs self).1 = optional_loop (signature self) []
  ∧ __wrapped__ (optionalArgs self).2 = __wrapped__ self
  ∧ cache_ok (optionalArgs self).2.
Proof.
  intros Hok. pose proof Hok as (Hm & Ho & Ha). unfold optionalArgs, cached_get.
  destruct (cached_optionalArgs self) as [v|] eqn:E; simpl.
  - split; [by apply Ho|]. done.
  - split; [done|]. split; [done|].
    repeat split; simpl; unfold signature; simpl; auto.
    intros v [= <-]. done.
Qed.

Lemma args_spec self :
  cache_ok self →
  (args self).1 = mandatory_loop (signature self) []
                  ++ optional_loop (signature self) []
  ∧ __wrapped__ (args self).2 = __wrapped__ self
  ∧ cache_ok (args self).2.
Proof.
  intros Hok. pose proof Hok as (Hm & Ho & Ha). unfold args, cached_get.
  destruct (cached_args self) as [v|] eqn:E; simpl.
  - split; [by apply Ha|]. done.
  - destruct (mandatoryArgs_spec self Hok) as (E1 & W1 & Hok1).
    destruct (mandatoryArgs self) as [m self1]. simpl in *.
    destruct (optionalArgs_spec self1 Hok1) as (E2 & W2 & Hok2).
    destruct (optionalArgs self1) as [o self2]. simpl in *.
    assert (Hsig2 : signature self2 = signature self)
      by (unfold signature; congruence).
    assert (Hsig1 : signature self1 = signature self)
      by (unfold signature; congruence).
    rewrite Hsig1 in E2. subst m o.
    split; [done|]. split; [congruence|].
    destruct Hok2 as (Hm2 & Ho2 & Ha2).
    repeat split; simpl; unfold signature in *; simpl.
    + intros v Hv. by apply Hm2.
    + intros v Hv. by apply Ho2.
    + intros v [= <-]. by rewrite Hsig2.
Qed.

Lemma getattr_spec self a :
  cache_ok self →
  __wrapped__ (getattr self a).2 = __wrapped__ self
  ∧ cache_ok (getattr self a).2.
Proof.
  intros Hok. destruct a; simpl.
  - by destruct (args_spec self Hok) as (_ & ? & ?).
  - by destruct (mandatoryArgs_spec self Hok) as (_ & ? & ?).
  - by destruct (optionalArgs_spec self Hok) as (_ & ? & ?).
Qed.

Lemma step_spec self w u :
  cache_ok self →
  __wrapped__ (step (self, w) u).1 = __wrapped__ self
  ∧ cache_ok (step (self, w) u).1.
Proof.
  intros Hok. destruct u; simpl; [|done..].
  by apply getattr_spec.
Qed.

Lemma run_spec history self w :
  cache_ok self →
  __wrapped__ (run history (self, w)).1 = __wrapped__ self
  ∧ cache_ok (run history (self, w)).1.
Proof.
  revert self w. induction history as [|u history IH]; intros self w Hok.
  - by split.
  - change (run (u :: history) (self, w))
      with (run history (step (self, w) u)).
    destruct (step_spec self w u Hok) as [HW Hok'].
    destruct (step (self, w) u) as [self' w'].
    destruct (IH self' w' Hok') as [HW' Hok''].
    split; [by rewrite HW'|exact Hok''].
Qed.

(** Whatever was done with a wrapper of [f] before, its three attributes
    read as the values the loops compute from the signature of [f]. *)
Lemma wrapper_attributes f w history :
  let self := (run history (FontbakeryCallable__init__ f, w)).1 in
  (mandatoryArgs self).1 = mandatory_loop (parameters f) []
  ∧ (optionalArgs self).1 = optional_loop (parameters f) []
  ∧ (args self).1 = mandatory_loop (parameters f) []
                    ++ optional_loop (parameters f) [].
Proof.
  intros self.
  destruct (run_spec history _ w (cache_ok_init f)) as [HW Hok].
  fold self in HW, Hok. simpl in HW.
  assert (Hsig : signature self = parameters f)
    by (unfold signature; by rewrite HW).
  destruct (mandatoryArgs_spec self Hok) as (-> & _ & _).
  destruct (optionalArgs_spec self Hok) as (-> & _ & _).
  destruct (args_spec self Hok) as (-> & _ & _).
  by rewrite Hsig.
Qed.

End ArgumentContract.

(** C1: for every wrapped invocable, whatever was done with the wrapper
    before, [mandatoryArgs] is the names of the contiguous prefix of the
    signature's parameters that have no default and are positional: the
    parameters split into that prefix and a rest that is empty or starts
    with a parameter that has a default or is of another kind, and nothing
    of the rest is included.  For the signature [(a, b, c=1, d=2)],
    [mandatoryArgs == (a, b)] and [optionalArgs == (c, d)]. *)
Theorem C1_mandatoryArgs_contiguous_prefix :
  (∀ (f : function) (w : World) (history : list use),
     let self := (run history (FontbakeryCallable__init__ f, w)).1 in
     ∃ pre rest,
       parameters f = pre ++ rest
       ∧ Forall mandatory_positional pre
       ∧ match rest with
         | [] => True
         | np :: _ => ¬ mandatory_positional np
         end
       ∧ (mandatoryArgs self).1 = pre.*1)
  ∧ (∀ name doc g body (w : World) (history : list use),
       let f := {| __name__ := name; getdoc := doc;
                   parameters := sig_a_b_c1_d2;
                   __globals__ := g; code := body |} in
       let self := (run history (FontbakeryCallable__init__ f, w)).1 in
       (mandatoryArgs self).1 = ["a"; "b"]
       ∧ (optionalArgs self).1 = ["c"; "d"]).
Proof.
  split.
  - intros f w history self.
    destruct (wrapper_attributes f w history) as (Hm & _ & _).
    fold self in Hm. rewrite Hm.
    apply mandatory_loop_prefix.
  - intros name doc g body w history f self.
    destruct (wrapper_attributes f w history) as (Hm & Ho & _).
    fold self in Hm, Ho. by rewrite Hm, Ho.
Qed.

(** C2: for every wrapped invocable with signature [(a, *, b)], [b]
    keyword-only and without default, [mandatoryArgs == (a,)] and
    [optionalArgs == ()]; [b] is in neither. *)
Theorem C2_keyword_only_in_neither :
  ∀ name doc g body (w : World) (history : list use),
    let f := {| __name__ := name; getdoc := doc;
                parameters := sig_a_star_b;
                __globals__ := g; code := body |} in
    let self := (run history (FontbakeryCallable__init__ f, w)).1 in
    (mandatoryArgs self).1 = ["a"]
    ∧ (optionalArgs self).1 = []
    ∧ ("b" ∉ (mandatoryArgs self).1)
    ∧ ("b" ∉ (optionalArgs self).1).
Proof.
  intros name doc g body w history f self.
  destruct (wrapper_attributes f w history) as (Hm & Ho & _).
  fold self in Hm, Ho. rewrite Hm, Ho. simpl.
  repeat split; [|apply not_elem_of_nil].
  by intros [=]%list_elem_of_singleton.
Qed.

(** C3: for every constructed wrapper, whatever was done with it before,
    [args] is [mandatoryArgs] followed by [optionalArgs]; and, the
    parameters of a signature being a mapping (distinct names), no name is
    in both. *)
Theorem C3_args_is_mandatory_then_optional :
  ∀ (f : function) (w : World) (history : list use),
    distinct_names (parameters f) →
    let self := (run history (FontbakeryCallable__init__ f, w)).1 in
    (args self).1 = (mandatoryArgs self).1 ++ (optionalArgs self).1
    ∧ ∀ n, n ∈ (mandatoryArgs self).1 → n ∉ (optionalArgs self).1.
Proof.
  intros f w history Hnd self.
  destruct (wrapper_attributes f w history) as (Hm & Ho & Ha).
  fold self in Hm, Ho, Ha. rewrite Hm, Ho, Ha. split; [done|].
  intros n (p & Hp & Hpd)%mandatory_loop_elem (q & Hq & Hqd)%optional_loop_elem.
  rewrite (distinct_names_functional _ n p q Hnd Hp Hq) in Hpd. congruence.
Qed.

(** The invariant at a wrapper of a function with signature
    [(a, b, c=1, d=2)], after a read of [args] and a call. *)
Lemma C3_args_witness :
  let f := def_function "com_example_check" None sig_a_b_c1_d2 in
  let self :=
    (run [Get Aargs; Call []] (FontbakeryCallable__init__ f, empty_world)).1 in
  distinct_names (parameters f)
  ∧ (args self).1 = (mandatoryArgs self).1 ++ (optionalArgs self).1
  ∧ ∀ n, n ∈ (mandatoryArgs self).1 → n ∉ (optionalArgs self).1.
Proof.
  assert (Hnd : distinct_names sig_a_b_c1_d2).
  { apply (bool_decide_unpack (distinct_names sig_a_b_c1_d2)).
    vm_compute. exact I. }
  split; [exact Hnd|].
  exact (C3_args_is_mandatory_then_optional
           (def_function "com_example_check" None sig_a_b_c1_d2)
           empty_world [Get Aargs; Call []] Hnd).
Defined.

(** ** Description and documentation of a check                            *)

Section DocDesc.

Lemma split_lines_nonempty s : split_lines s ≠ [].
Proof.
  destruct s as [|c s]; simpl; [done|].
  destruct (Ascii.eqb c LF); [done|]. by destruct (split_lines s).
Qed.

(** Splitting at line feeds and joining with line feeds gives the string
    back. *)
Lemma join_split_lines s : join NL (split_lines s) = s.
Proof.
  induction s as [|c s IH]; simpl; [done|].
  pose proof (split_lines_nonempty s) as Hne.
  destruct (Ascii.eqb c LF) eqn:Hc.
  - apply Ascii.eqb_eq in Hc as ->.
    unfold join in *. simpl.
    destruct (split_lines s) as [|l ls]; [done|].
    rewrite IH. reflexivity.
  - unfold join in *. destruct (split_lines s) as [|l ls]; [done|].
    simpl in *. destruct ls; simpl in *; by rewrite <- IH.
Qed.

Lemma docstring_or_empty f :
  (if truthy (getdoc f) then default EmptyString (getdoc f)
   else EmptyString) = docstring f.
Proof. unfold docstring. by destruct (getdoc f) as [[|]|]. Qed.

Lemma str_truthy_false s : str_truthy s = false ↔ s = EmptyString.
Proof. by destruct s. Qed.

Lemma str_truthy_true s : str_truthy s = true ↔ s ≠ EmptyString.
Proof. by destruct s. Qed.

Lemma consume_description_spec doclines acc :
  ∃ pre rest,
    doclines = pre ++ rest
    ∧ Forall (λ l, l ≠ EmptyString) pre
    ∧ (head rest = None ∨ head rest = Some EmptyString)
    ∧ consume_description doclines acc = (rest, acc ++ pre).
Proof.
  revert acc. induction doclines as [|l doclines IH]; intros acc; simpl.
  - exists [], []. rewrite !app_nil_r. repeat split; auto.
  - destruct (str_truthy l) eqn:Hl.
    + destruct (IH (acc ++ [l])) as (pre & rest & -> & Hpre & Hrest & ->).
      exists (l :: pre), rest. rewrite <- app_assoc.
      repeat split; auto. constructor; [by apply str_truthy_true|done].
    + apply str_truthy_false in Hl as ->.
      exists [], (EmptyString :: doclines). rewrite !app_nil_r.
      repeat split; auto.
Qed.

Lemma drop_empty_lines_spec doclines :
  ∃ blanks body,
    doclines = blanks ++ body
    ∧ Forall (λ l, l = EmptyString) blanks
    ∧ head body ≠ Some EmptyString
    ∧ drop_empty_lines doclines = body.
Proof.
  induction doclines as [|l doclines (blanks & body & -> & Hb & Hbody & IH)];
    simpl.
  - by exists [], [].
  - destruct (str_truthy l) eqn:Hl; simpl.
    + exists [], (l :: blanks ++ body). repeat split; auto.
      simpl. intros [= ->]. done.
    + apply str_truthy_false in Hl as ->.
      exists (EmptyString :: blanks), body. repeat split; auto.
Qed.

Lemma join_truthy sep l ls :
  l ≠ EmptyString → str_truthy (join sep (l :: ls)) = true.
Proof.
  intros Hl. unfold join. simpl.
  destruct l as [|c l]; [done|]. by destruct ls.
Qed.

(** What [get_doc_desc] returns when no description is passed. *)
Lemma get_doc_desc_derived f description documentation :
  truthy description = false →
  ∃ pre rest blanks body,
    split_lines (docstring f) = pre ++ rest
    ∧ Forall (λ l, l ≠ EmptyString) pre
    ∧ (head rest = None ∨ head rest = Some EmptyString)
    ∧ rest = blanks ++ body
    ∧ Forall (λ l, l = EmptyString) blanks
    ∧ head body ≠ Some EmptyString
    ∧ get_doc_desc f description documentation =
        (Some (join " " pre),
         if truthy documentation then documentation
         else match body with
              | [] => documentation
              | _ :: _ => Some (join NL body)
              end).
Proof.
  intros Hd. unfold get_doc_desc. rewrite docstring_or_empty, Hd. simpl.
  destruct (consume_description_spec (split_lines (docstring f)) [])
    as (pre & rest & Hsplit & Hpre & Hrest & ->). simpl.
  destruct (drop_empty_lines_spec rest)
    as (blanks & body & Hr & Hblanks & Hbody & ->).
  exists pre, rest, blanks, body. repeat split; auto.
  f_equal. destruct (truthy documentation); [done|].
  destruct body as [|l body]; [done|].
  cbn [negb andb length Nat.eqb].
  rewrite join_truthy; [done|]. intros ->. by apply Hbody.
Qed.

Lemma init_ok_fields type_name f a chk :
  FontBakeryCheck__init__ type_name f a = Ok chk →
  (description chk, documentation chk)
    = get_doc_desc f (arg_description a) (arg_documentation a)
  ∧ truthy (description chk) = true.
Proof.
  unfold FontBakeryCheck__init__.
  destruct (get_doc_desc f (arg_description a) (arg_documentation a))
    as [desc docu]. simpl.
  destruct (truthy desc) eqn:Ht; simpl; [|done].
  intros [= <-]. by simpl.
Qed.

Lemma init_result type_name f a :
  FontBakeryCheck__init__ type_name f a =
    if truthy (get_doc_desc f (arg_description a) (arg_documentation a)).1
    then FontBakeryCheck__init__ type_name f a
    else Err (TypeError (type_name +:+ " needs a description.")).
Proof.
  unfold FontBakeryCheck__init__.
  destruct (get_doc_desc f (arg_description a) (arg_documentation a))
    as [desc docu]. simpl.
  by destruct (truthy desc).
Qed.

End DocDesc.

(** C4: for every check constructed without an explicit description, the
    description is the leading non-empty lines of the documentation string,
    up to the first empty line, joined with single spaces; and when no
    documentation is passed, the documentation is the rest after that block
    without its leading empty lines, joined with line feeds, and absent
    when nothing is left.  The documentation string of the example gives
    the description "Short desc." and the two-line documentation. *)
Theorem C4_description_and_documentation_from_docstring :
  (∀ type_name (f : function) (a : check_args) (chk : FontBakeryCheck),
     arg_description a = None →
     FontBakeryCheck__init__ type_name f a = Ok chk →
     ∃ pre rest blanks body,
       split_lines (docstring f) = pre ++ rest
       ∧ Forall (λ l, l ≠ EmptyString) pre
       ∧ (head rest = None ∨ head rest = Some EmptyString)
       ∧ description chk = Some (join " " pre)
       ∧ rest = blanks ++ body
       ∧ Forall (λ l, l = EmptyString) blanks
       ∧ head body ≠ Some EmptyString
       ∧ (arg_documentation a = None →
          documentation chk = match body with
                              | [] => None
                              | _ :: _ => Some (join NL body)
                              end))
  ∧ (∀ type_name (f : function) (a : check_args),
       getdoc f = Some example_doc →
       arg_description a = None →
       arg_documentation a = None →
       ∃ chk, FontBakeryCheck__init__ type_name f a = Ok chk
              ∧ description chk = Some "Short desc."
              ∧ documentation chk
                = Some ("Long body line 1." +:+ NL +:+ "Long body line 2.")).
Proof.
  split.
  - intros type_name f a chk Hd Hinit.
    apply init_ok_fields in Hinit as [Hfields _].
    destruct (get_doc_desc_derived f (arg_description a) (arg_documentation a))
      as (pre & rest & blanks & body & H1 & H2 & H3 & H4 & H5 & H6 & Hg).
    { by rewrite Hd. }
    rewrite Hg in Hfields. injection Hfields as Hdesc Hdocu.
    exists pre, rest, blanks, body. repeat split; auto.
    intros Hn. rewrite Hdocu, Hn. simpl. by destruct body.
  - intros type_name f a Hdoc Hd Hn.
    unfold FontBakeryCheck__init__, get_doc_desc.
    rewrite Hdoc, Hd, Hn. simpl. eexists. split; [reflexivity|]. by simpl.
Qed.

(** The derivation at the example documentation string. *)
Lemma C4_docstring_witness :
  let f := def_function "com_example_check" (Some example_doc) [] in
  let a := with_defaults "com.example/check" None None in
  ∃ chk,
    FontBakeryCheck__init__ "FontBakeryCheck" f a = Ok chk
    ∧ description chk = Some "Short desc."
    ∧ documentation chk
      = Some ("Long body line 1." +:+ NL +:+ "Long body line 2.")
    ∧ ∃ pre rest blanks body,
        split_lines (docstring f) = pre ++ rest
        ∧ Forall (λ l, l ≠ EmptyString) pre
        ∧ (head rest = None ∨ head rest = Some EmptyString)
        ∧ description chk = Some (join " " pre)
        ∧ rest = blanks ++ body
        ∧ Forall (λ l, l = EmptyString) blanks
        ∧ head body ≠ Some EmptyString
        ∧ (arg_documentation a = None →
           documentation chk = match body with
                               | [] => None
                               | _ :: _ => Some (join NL body)
                               end).
Proof.
  eexists. split; [reflexivity|].
  split; [reflexivity|]. split; [reflexivity|].
  exact (proj1 C4_description_and_documentation_from_docstring
           "FontBakeryCheck"
           (def_function "com_example_check" (Some example_doc) [])
           (with_defaults "com.example/check" None None)
           _ eq_refl eq_refl).
Defined.

Section Validation.

Lemma get_doc_desc_empty_is_none f documentation :
  get_doc_desc f (Some EmptyString) documentation
  = get_doc_desc f None documentation.
Proof. reflexivity. Qed.

Lemma init_is_ok type_name f a :
  is_ok (FontBakeryCheck__init__ type_name f a)
  = truthy (get_doc_desc f (arg_description a) (arg_documentation a)).1.
Proof.
  unfold FontBakeryCheck__init__.
  destruct (get_doc_desc f (arg_description a) (arg_documentation a))
    as [desc docu]. simpl.
  by destruct (truthy desc).
Qed.

Lemma prefix_append s t : String.prefix s (s +:+ t) = true.
Proof.
  induction s as [|c s IH]; simpl; [by destruct t|].
  destruct (ascii_dec c c); [done|congruence].
Qed.

Lemma occurs_prefix s t : occurs s (s +:+ t) = true.
Proof.
  pose proof (prefix_append s t) as Hp.
  destruct (s +:+ t); cbn [occurs]; by rewrite Hp.
Qed.

End Validation.

(** C5, as stated, fails: constructing a check from the undocumented
    function [com_example_check] without a description raises a
    [TypeError] whose message names the class [FontBakeryCheck]; the name
    of the function does not occur in it. *)
Lemma C5_error_does_not_name_the_invocable :
  let f := def_function "com_example_check" None [] in
  let a := with_defaults "com.example/check" None None in
  (get_doc_desc f (arg_description a) (arg_documentation a)).1
    = Some EmptyString
  ∧ FontBakeryCheck__init__ "FontBakeryCheck" f a
    = Err (TypeError "FontBakeryCheck needs a description.")
  ∧ mentions (TypeError "FontBakeryCheck needs a description.") (__name__ f)
    = false.
Proof. repeat split. Qed.

(** C5, amended: when the description is still empty or absent after the
    derivation from the documentation string (as for [description=None]
    and an empty documentation string), construction fails with a
    [TypeError] whose message names the class being instantiated, and no
    check is produced. *)
Theorem C5_no_description_raises_TypeError :
  ∀ type_name (f : function) (a : check_args),
    let e := TypeError (type_name +:+ " needs a description.") in
    (truthy (get_doc_desc f (arg_description a) (arg_documentation a)).1
       = false →
     FontBakeryCheck__init__ type_name f a = Err e
     ∧ mentions e type_name = true)
    ∧ (arg_description a = None → docstring f = EmptyString →
       FontBakeryCheck__init__ type_name f a = Err e).
Proof.
  intros type_name f a e.
  assert (He : truthy (get_doc_desc f (arg_description a)
                         (arg_documentation a)).1 = false →
               FontBakeryCheck__init__ type_name f a = Err e).
  { intros Hd. rewrite init_result, Hd. done. }
  split.
  - intros Hd. split; [by apply He|]. apply occurs_prefix.
  - intros Hnone Hdoc. apply He.
    unfold get_doc_desc. by rewrite docstring_or_empty, Hdoc, Hnone.
Qed.

(** The failure at a function with an empty documentation string. *)
Lemma C5_no_description_witness :
  let f := def_function "com_example_check" (Some EmptyString) [] in
  let a := with_defaults "com.example/check" None None in
  let e := TypeError "FontBakeryCheck needs a description." in
  truthy (get_doc_desc f (arg_description a) (arg_documentation a)).1 = false
  ∧ FontBakeryCheck__init__ "FontBakeryCheck" f a = Err e
  ∧ mentions e "FontBakeryCheck" = true.
Proof.
  split; [reflexivity|].
  exact (proj1 (C5_no_description_raises_TypeError "FontBakeryCheck"
           (def_function "com_example_check" (Some EmptyString) [])
           (with_defaults "com.example/check" None None)) eq_refl).
Defined.

(** C9: an explicit empty description is treated as an absent one: the
    construction gives the same result, the description being derived
    from the documentation string, and it fails exactly when the derived
    description is empty. *)
Theorem C9_empty_description_is_absent_description :
  ∀ type_name (f : function) (a : check_args),
    let given_empty :=
      FontBakeryCheck__init__ type_name f
        (with_description (Some EmptyString) a) in
    let derived := (get_doc_desc f None (arg_documentation a)).1 in
    given_empty
      = FontBakeryCheck__init__ type_name f (with_description None a)
    ∧ (∀ chk, given_empty = Ok chk →
         description chk = derived
         ∧ ∃ pre rest,
             split_lines (docstring f) = pre ++ rest
             ∧ Forall (λ l, l ≠ EmptyString) pre
             ∧ (head rest = None ∨ head rest = Some EmptyString)
             ∧ description chk = Some (join " " pre))
    ∧ (is_ok given_empty = false ↔ derived = Some EmptyString).
Proof.
  intros type_name f a given_empty derived.
  split; [reflexivity|]. split.
  - intros chk Hok. apply init_ok_fields in Hok as [Hf _].
    simpl in Hf. rewrite get_doc_desc_empty_is_none in Hf.
    destruct (get_doc_desc_derived f None (arg_documentation a) eq_refl)
      as (pre & rest & blanks & body & H1 & H2 & H3 & _ & _ & _ & Hg).
    unfold derived. rewrite Hg in Hf |- *. injection Hf as Hdesc _.
    split; [done|]. exists pre, rest. by repeat split.
  - unfold given_empty. rewrite init_is_ok. simpl.
    rewrite get_doc_desc_empty_is_none. fold derived.
    destruct (get_doc_desc_derived f None (arg_documentation a) eq_refl)
      as (pre & rest & blanks & body & _ & _ & _ & _ & _ & _ & Hg).
    unfold derived. rewrite Hg. simpl.
    rewrite str_truthy_false. split; [intros H; by rewrite H|by intros [= H]].
Qed.

(** An empty description with the example documentation string: the
    check is constructed, with the derived description. *)
Lemma C9_empty_description_witness :
  let f := def_function "com_example_check" (Some example_doc) [] in
  let a := with_defaults "com.example/check" (Some EmptyString) None in
  ∃ chk,
    FontBakeryCheck__init__ "FontBakeryCheck" f a = Ok chk
    ∧ description chk = Some "Short desc."
    ∧ description chk = (get_doc_desc f None (arg_documentation a)).1.
Proof.
  eexists. split; [reflexivity|]. split; [reflexivity|].
  exact (proj1 (proj1 (proj2 (C9_empty_description_is_absent_description
           "FontBakeryCheck"
           (def_function "com_example_check" (Some example_doc) [])
           (with_defaults "com.example/check" (Some EmptyString) None)))
           _ eq_refl)).
Defined.

(** ** Conditions                                                          *)

Section Conditions.

Lemma dict_at_insert_eq (st : Store) r (d : gmap string pyval) :
  dict_at (<[r := d]> st) r = d.
Proof. unfold dict_at. by rewrite lookup_insert_eq. Qed.

Lemma dict_at_insert_ne (st : Store) r r' (d : gmap string pyval) :
  r ≠ r' → dict_at (<[r := d]> st) r' = dict_at st r'.
Proof. intros. unfold dict_at. by rewrite lookup_insert_ne. Qed.

Lemma class_dict_insert_eq w c (d : gmap string cached_property) :
  class_dict {| store := store w; classes := <[c := d]> (classes w);
                trace := trace w |} c = d.
Proof. unfold class_dict. cbn [classes]. by rewrite lookup_insert_eq. Qed.

(** What the decorator does to the world, and what it returns. *)
Lemma decorator_spec c f w :
  decorator c [f] w
  = (Ok VNone,
     {| store := store w;
        classes := <[c := <[__name__ f := property_of f]> (class_dict w c)]>
                     (classes w);
        trace := trace w |}).
Proof. reflexivity. Qed.

Lemma decorator_installs c f w :
  class_dict (decorator c [f] w).2 c !! __name__ f = Some (property_of f).
Proof.
  rewrite decorator_spec. simpl. rewrite class_dict_insert_eq.
  apply lookup_insert_eq.
Qed.

(** A read of an attribute that is in the instance dictionary returns it
    and changes nothing. *)
Lemma instance_getattr_cached cls d name w v :
  dict_at (store w) d !! name = Some v →
  instance_getattr cls d name w = (Ok v, w).
Proof. intros H. unfold instance_getattr. by rewrite H. Qed.

Lemma read_times_cached n cls d name w v :
  dict_at (store w) d !! name = Some v →
  read_times n cls d name w = (repeat (Ok v) n, w).
Proof.
  intros H. induction n as [|n IH]; simpl; [done|].
  by rewrite (instance_getattr_cached _ _ _ _ _ H), IH.
Qed.

(** A read that returns a value leaves that value in the instance
    dictionary, and has called the function at most once. *)
Lemma instance_getattr_returns cls d f w v w' :
  class_dict w cls !! __name__ f = Some (property_of f) →
  instance_getattr cls d (__name__ f) w = (Ok v, w') →
  dict_at (store w') d !! __name__ f = Some v
  ∧ ∃ k, k ≤ 1 ∧ trace w' = trace w ++ repeat f k.
Proof.
  intros Hcls. unfold instance_getattr.
  destruct (dict_at (store w) d !! __name__ f) as [val|] eqn:Hd.
  - intros [= <- <-]. split; [done|].
    exists 0. split; [lia|]. simpl. by rewrite app_nil_r.
  - rewrite Hcls. unfold cached_property__get__, property_of. simpl.
    rewrite Hd. unfold bind, call.
    destruct (code f (store w) [VInstance cls d]) as [st' [val|e]];
      simpl; [|done].
    intros [= <- <-]. simpl. split.
    + rewrite dict_at_insert_eq. apply lookup_insert_eq.
    + exists 1. split; [lia|done].
Qed.

(** A read that raises has called the function once and stored nothing:
    the class is as before. *)
Lemma instance_getattr_raises cls d f w e w' :
  class_dict w cls !! __name__ f = Some (property_of f) →
  instance_getattr cls d (__name__ f) w = (Err e, w') →
  class_dict w' cls = class_dict w cls
  ∧ trace w' = trace w ++ [f].
Proof.
  intros Hcls. unfold instance_getattr.
  destruct (dict_at (store w) d !! __name__ f) as [val|] eqn:Hd; [done|].
  rewrite Hcls. unfold cached_property__get__, property_of. simpl.
  rewrite Hd. unfold bind, call.
  destruct (code f (store w) [VInstance cls d]) as [st' [val|e']];
    simpl; [done|].
  by intros [= <- <-].
Qed.

(** The results of [n] reads: reads that raise, then reads that all return
    one value; the function is called once per read that raises, and at
    most once more. *)
Lemma read_times_shape n cls d f w :
  class_dict w cls !! __name__ f = Some (property_of f) →
  ∃ (raised : list exn) (v : pyval) (m k : nat),
    (read_times n cls d (__name__ f) w).1
      = (Err <$> raised) ++ repeat (Ok v) m
    ∧ k ≤ 1
    ∧ trace (read_times n cls d (__name__ f) w).2
      = trace w ++ repeat f (length raised + k).
Proof.
  revert w. induction n as [|n IH]; intros w Hcls.
  - exists [], VNone, 0, 0. simpl. rewrite app_nil_r. auto.
  - simpl. destruct (instance_getattr cls d (__name__ f) w) as [[v|e] w1] eqn:E.
    + destruct (instance_getattr_returns cls d f w v w1 Hcls E)
        as (Hd & k & Hk & Htr).
      rewrite (read_times_cached n _ _ _ _ _ Hd). simpl.
      exists [], v, (S n), k. simpl. auto.
    + destruct (instance_getattr_raises cls d f w e w1 Hcls E) as [Hc Htr].
      destruct (IH w1) as (raised & v & m & k & Hr & Hk & Ht).
      { by rewrite Hc. }
      destruct (read_times n cls d (__name__ f) w1) as [rs w2].
      simpl in *. exists (e :: raised), v, m, k. rewrite Hr, Ht, Htr.
      rewrite <- app_assoc. auto.
Qed.

End Conditions.

(** C6: for every condition function registered onto a namespace class and
    every instance of it, the reads of the attribute that return a value
    all return the same value, and the function is invoked once for each
    read that raises and at most once besides; so when the first read
    returns a value, any number of reads all return that value and invoke
    the function at most once. *)
Theorem C6_condition_is_computed_at_most_once :
  ∀ (cls_name : string) (c d : ref) (f : function) (w0 : World) (n : nat),
    let w1 := (register_condition cls_name c f w0).2 in
    let reads := read_times n c d (__name__ f) w1 in
    (∃ (raised : list exn) (v : pyval) (m k : nat),
       reads.1 = (Err <$> raised) ++ repeat (Ok v) m
       ∧ k ≤ 1
       ∧ trace reads.2 = trace w1 ++ repeat f (length raised + k))
    ∧ (∀ v, (instance_getattr c d (__name__ f) w1).1 = Ok v →
         reads.1 = repeat (Ok v) n
         ∧ ∃ k, k ≤ 1 ∧ trace reads.2 = trace w1 ++ repeat f k).
Proof.
  intros cls_name c d f w0 n w1 reads. split.
  { apply read_times_shape, decorator_installs. }
  intros v Hfirst.
  destruct n as [|n].
  { split; [done|]. exists 0. split; [lia|]. simpl. by rewrite app_nil_r. }
  unfold reads. simpl.
  destruct (instance_getattr c d (__name__ f) w1) as [r w2] eqn:E.
  simpl in Hfirst. subst r.
  destruct (instance_getattr_returns c d f w1 v w2) as [Hd Htr];
    [apply decorator_installs|done|].
  rewrite (read_times_cached n _ _ _ _ _ Hd). simpl. by split.
Qed.

(** [isVariableFont] registered on a class and read twice from an
    instance. *)
Lemma C6_condition_witness :
  let w1 := (register_condition "Font" 2%positive isVariableFont
               empty_world).2 in
  let reads := read_times 2 2%positive 3%positive "isVariableFont" w1 in
  (instance_getattr 2%positive 3%positive "isVariableFont" w1).1
    = Ok (VBool true)
  ∧ reads.1 = [Ok (VBool true); Ok (VBool true)]
  ∧ ∃ k, k ≤ 1 ∧ trace reads.2 = trace w1 ++ repeat isVariableFont k.
Proof.
  split; [vm_compute; reflexivity|].
  exact (proj2 (C6_condition_is_computed_at_most_once "Font" 2%positive
                  3%positive isVariableFont empty_world 2)
           (VBool true) eq_refl).
Defined.

(** C10: the decorator made by [condition] installs the memoized property
    on the class under the function's name and returns [None]; used in
    decorator position, it leaves the function's name bound to [None] in
    the defining namespace, the function being held by the class
    attribute, and the function is not invoked. *)
Theorem C10_condition_decorator_returns_None :
  ∀ (cls_name : string) (c ns : ref) (f : function) (w : World),
    condition (OClass cls_name c) = Ok (decorator c)
    ∧ (register_condition cls_name c f w).1 = Ok VNone
    ∧ class_dict (register_condition cls_name c f w).2 c !! __name__ f
      = Some (property_of f)
    ∧ let defined := decorated_def (decorator c) ns f w in
      defined.1 = Ok tt
      ∧ dict_at (store defined.2) ns !! __name__ f = Some VNone
      ∧ class_dict defined.2 c !! __name__ f = Some (property_of f)
      ∧ cp_func (property_of f) = f
      ∧ trace defined.2 = trace w.
Proof.
  intros cls_name c ns f w.
  split; [reflexivity|]. split; [reflexivity|].
  split; [apply decorator_installs|].
  unfold decorated_def, bind. rewrite decorator_spec. simpl.
  split; [done|]. split.
  { rewrite dict_at_insert_eq. apply lookup_insert_eq. }
  split; [|done].
  unfold class_dict at 1. simpl. rewrite lookup_insert_eq. simpl.
  apply lookup_insert_eq.
Qed.

(** ** Disabled checks                                                     *)

(** C8: constructing a [Disabled] marker around an invocable does not
    invoke it (the world, with its record of calls, is unchanged), and the
    marker's [func] is the invocable itself. *)
Theorem C8_disable_keeps_the_invocable :
  ∀ (f : function) (w : World),
    ∃ marker,
      disable f w = (Ok marker, w)
      ∧ trace (disable f w).2 = trace w
      ∧ func marker = f.
Proof. intros f w. by exists {| func := f |}. Qed.

(** ** Injection of globals                                                *)

Section InjectGlobals.

Lemma run_app h1 h2 sw : run (h1 ++ h2) sw = run h2 (run h1 sw).
Proof. unfold run. apply fold_left_app. Qed.

Lemma inject_globals_store self new_globals w :
  let g := __globals__ (__wrapped__ self) in
  dict_at (store (inject_globals self new_globals w).2) g
  = new_globals ∪ dict_at (store w) g.
Proof. simpl. apply dict_at_insert_eq. Qed.

End InjectGlobals.

(** C7: for every wrapper, in whatever state, and every mapping, after
    [inject_globals] each injected name resolves to its mapped value in
    the globals the wrapped invocable runs with at the next invocation;
    names that are not injected and other dictionaries are as before; the
    wrapper itself, and so [mandatoryArgs], [optionalArgs] and [args], are
    unchanged.  After injecting [hello = 42], a function returning [hello]
    returns 42. *)
Theorem C7_inject_globals :
  (∀ (f : function) (w0 : World) (history : list use)
     (new_globals : gmap string pyval),
     let before := run history (FontbakeryCallable__init__ f, w0) in
     let later := run (history ++ [Inject new_globals])
                    (FontbakeryCallable__init__ f, w0) in
     let g := __globals__ f in
     later = (before.1, (inject_globals before.1 new_globals before.2).2)
     ∧ (∀ k v, new_globals !! k = Some v →
          load_global g k (store later.2) = Ok v)
     ∧ (∀ k, new_globals !! k = None →
          load_global g k (store later.2) = load_global g k (store before.2))
     ∧ (∀ r, r ≠ g → dict_at (store later.2) r = dict_at (store before.2) r)
     ∧ (∀ a, (FontbakeryCallable__call__ later.1 a later.2).1
             = (code f (store later.2) a).2)
     ∧ (mandatoryArgs later.1).1 = (mandatoryArgs before.1).1
     ∧ (optionalArgs later.1).1 = (optionalArgs before.1).1
     ∧ (args later.1).1 = (args before.1).1)
  ∧ (∀ (g : ref) (w0 : World) (history : list use),
       let later := run (history ++ [Inject {["hello" := VInt 42]}])
                      (FontbakeryCallable__init__ (return_hello g), w0) in
       (FontbakeryCallable__call__ later.1 [] later.2).1 = Ok (VInt 42)).
Proof.
  assert (Hgen : ∀ f w0 history new_globals,
    let before := run history (FontbakeryCallable__init__ f, w0) in
    let later := run (history ++ [Inject new_globals])
                   (FontbakeryCallable__init__ f, w0) in
    later = (before.1, (inject_globals before.1 new_globals before.2).2)
    ∧ __wrapped__ before.1 = f
    ∧ dict_at (store later.2) (__globals__ f)
      = new_globals ∪ dict_at (store before.2) (__globals__ f)).
  { intros f w0 history new_globals before later.
    destruct (run_spec history _ w0 (cache_ok_init f)) as [HW _].
    fold before in HW. simpl in HW.
    assert (Hl : later
      = (before.1, (inject_globals before.1 new_globals before.2).2)).
    { unfold later. rewrite run_app. fold before. by destruct before. }
    split; [done|]. split; [done|].
    rewrite Hl. cbn [snd]. rewrite <- HW. apply inject_globals_store. }
  split.
  - intros f w0 history new_globals before later g.
    destruct (Hgen f w0 history new_globals) as (Hl & HW & Hd).
    fold before later in Hl, HW, Hd. fold g in Hd.
    split; [done|]. unfold load_global. rewrite Hd.
    split; [|split; [|split; [|split]]].
    + intros k v Hk. by rewrite (lookup_union_Some_l _ _ _ _ Hk).
    + intros k Hk. by rewrite (lookup_union_r _ _ _ Hk).
    + intros r Hr. rewrite Hl. simpl. rewrite HW. fold g.
      by apply dict_at_insert_ne.
    + intros a. rewrite Hl. cbn [fst snd].
      unfold FontbakeryCallable__call__, call. rewrite HW.
      by destruct (code f _ a).
    + by rewrite Hl.
  - intros g w0 history later.
    destruct (Hgen (return_hello g) w0 history {["hello" := VInt 42]})
      as (Hl & HW & Hd).
    fold later in Hl, Hd. simpl in Hd.
    assert (HW' : __wrapped__ later.1 = return_hello g) by by rewrite Hl.
    unfold FontbakeryCallable__call__, call. rewrite HW'. simpl.
    unfold load_global. rewrite Hd.
    by rewrite (lookup_union_Some_l _ _ "hello" (VInt 42)
                  (lookup_singleton_eq _ _)).
Qed.

(** Injecting [hello = 42] into the globals of a function that returns
    [hello]. *)
Lemma C7_inject_globals_witness :
  let later := run [Get Aargs; Inject {["hello" := VInt 42]}]
                 (FontbakeryCallable__init__ (return_hello 1%positive),
                  empty_world) in
  ({["hello" := VInt 42]} : gmap string pyval) !! "hello" = Some (VInt 42)
  ∧ load_global 1%positive "hello" (store later.2) = Ok (VInt 42)
  ∧ (FontbakeryCallable__call__ later.1 [] later.2).1 = Ok (VInt 42).
Proof.
  split; [apply lookup_singleton_eq|]. split.
  - exact (proj1 (proj2 (proj1 C7_inject_globals
             (return_hello 1%positive) empty_world [Get Aargs]
             {["hello" := VInt 42]}))
             "hello" (VInt 42) (lookup_singleton_eq _ _)).
  - exact (proj2 C7_inject_globals 1%positive empty_world [Get Aargs]).
Defined.

(* ===================================================================== *)
(** * Further properties                                                   *)
(* ===================================================================== *)

(** ** More on the argument contract                                       *)

Section MoreArgumentContract.

Lemma optional_loop_split items :
  ∃ pre rest,
    items = pre ++ rest
    ∧ Forall (λ np, defaulted_non_positional np = false) pre
    ∧ match rest with
      | [] => True
      | np :: _ => defaulted_non_positional np = true
      end
    ∧ optional_loop items []
      = (List.filter (λ np, has_default np.2) pre).*1.
Proof.
  induction items as [|[name param] items (pre & rest & -> & Hpre & Hrest & IH)].
  - exists [], []. repeat split; auto.
  - simpl. destruct (has_default param) eqn:Hd; simpl.
    + destruct (kind_positional param) eqn:Hk; simpl.
      * exists ((name, param) :: pre), rest. repeat split; auto.
        -- constructor; [|done]. unfold defaulted_non_positional. simpl.
           by rewrite Hd, Hk.
        -- simpl. rewrite Hd. csimpl. by rewrite optional_loop_acc, IH.
      * exists [], ((name, param) :: pre ++ rest). repeat split; auto.
        unfold defaulted_non_positional. simpl. by rewrite Hd, Hk.
    + exists ((name, param) :: pre), rest. repeat split; auto.
      * constructor; [|done]. unfold defaulted_non_positional. simpl.
        by rewrite Hd.
      * simpl. by rewrite Hd.
Qed.

Lemma optional_loop_positional items n :
  n ∈ optional_loop items [] →
  ∃ p, (n, p) ∈ items ∧ has_default p = true ∧ kind_positional p = true.
Proof.
  induction items as [|[name param] items IH]; simpl.
  - by intros ?%elem_of_nil.
  - destruct (has_default param) eqn:Hd; simpl.
    + destruct (kind_positional param) eqn:Hk; simpl;
        [|by intros ?%elem_of_nil].
      rewrite optional_loop_acc.
      intros [->%list_elem_of_singleton|H]%elem_of_app.
      * exists param. split; [left|done].
      * destruct (IH H) as (p & ? & ?). exists p. split; [by right|done].
    + intros H. destruct (IH H) as (p & ? & ?). exists p. split; [by right|done].
Qed.

Lemma optional_loop_sublist items :
  optional_loop items [] `sublist_of` items.*1.
Proof.
  induction items as [|[name param] items IH]; csimpl; [done|].
  destruct (has_default param); simpl.
  - destruct (kind_positional param); simpl.
    + rewrite optional_loop_acc. simpl. by apply sublist_skip.
    + apply sublist_nil_l.
  - by apply sublist_cons.
Qed.

Lemma contract_sublist items :
  mandatory_loop items [] ++ optional_loop items [] `sublist_of` items.*1.
Proof.
  induction items as [|[name param] items IH]; csimpl; [done|].
  destruct (has_default param) eqn:Hd; simpl.
  - destruct (kind_positional param); simpl.
    + rewrite optional_loop_acc. simpl. apply sublist_skip,
        optional_loop_sublist.
    + apply sublist_nil_l.
  - destruct (kind_positional param); simpl.
    + rewrite mandatory_loop_acc. simpl. by apply sublist_skip.
    + apply sublist_cons, optional_loop_sublist.
Qed.

Lemma names_where_cons P n p sig :
  names_where P ((n, p) :: sig)
  = if P p then n :: names_where P sig else names_where P sig.
Proof. unfold names_where. simpl. by destruct (P p). Qed.

Lemma kind_positional_rank p :
  kind_positional p = false ↔ 2 ≤ kind_rank (param_kind p).
Proof.
  unfold kind_positional. destruct (param_kind p); simpl; split;
    intros; try done; lia.
Qed.

(** Past the positional kinds, a checked signature has no positional
    parameter left. *)
Lemma validate_no_positional params top seen :
  validate_parameters params top seen = true → 2 ≤ top →
  Forall (λ np, kind_positional np.2 = false) params.
Proof.
  revert top seen.
  induction params as [|[name param] params IH]; intros top seen; simpl;
    [constructor|].
  destruct (Nat.ltb_spec (kind_rank (param_kind param)) top); [done|].
  intros Hv Htop.
  assert (Hk : kind_positional param = false)
    by (apply kind_positional_rank; lia).
  rewrite Hk in Hv. constructor; [done|].
  apply (IH _ _ Hv). lia.
Qed.

Lemma no_positional_contract params :
  Forall (λ np, kind_positional np.2 = false) params →
  mandatory_loop params [] = []
  ∧ optional_loop params [] = []
  ∧ ∀ P, names_where (λ p, kind_positional p && P p) params = [].
Proof.
  induction 1 as [|[name param] params Hk _ (IHm & IHo & IHn)]; [done|].
  simpl in Hk. split; [|split].
  - simpl. by rewrite Hk, orb_true_r.
  - simpl. rewrite Hk. simpl. by destruct (has_default param).
  - intros P. rewrite names_where_cons, Hk. simpl. apply IHn.
Qed.

(** After a positional parameter with a default, a checked signature has
    no mandatory parameter, and its optional ones are its positional
    ones. *)
Lemma validate_seen_default params top :
  validate_parameters params top true = true →
  mandatory_loop params [] = []
  ∧ optional_loop params [] = names_where kind_positional params
  ∧ names_where (λ p, kind_positional p && negb (has_default p)) params = []
  ∧ names_where (λ p, kind_positional p && has_default p) params
    = names_where kind_positional params.
Proof.
  revert top.
  induction params as [|[name param] params IH]; intros top; simpl; [done|].
  destruct (Nat.ltb_spec (kind_rank (param_kind param)) top); [done|].
  rewrite !names_where_cons.
  destruct (kind_positional param) eqn:Hk; simpl.
  - destruct (has_default param) eqn:Hd; [|done]. simpl.
    intros (Hm & Ho & Hn & Hp)%IH.
    rewrite optional_loop_acc, Ho, Hn, Hp. done.
  - intros Hv.
    assert (Hno := validate_no_positional _ _ _ Hv
                     (proj1 (kind_positional_rank param) Hk)).
    destruct (no_positional_contract _ Hno) as (Hm & Ho & Hn).
    rewrite orb_true_r.
    assert (Hall : names_where kind_positional params = []).
    { rewrite <- (Hn (λ _, true)). unfold names_where. f_equal.
      apply filter_ext. intros. by rewrite andb_true_r. }
    rewrite !Hn, Hall. split; [done|]. split; [|done].
    destruct (has_default param); simpl; [done|apply Ho].
Qed.

Lemma validate_contract params top :
  validate_parameters params top false = true →
  mandatory_loop params []
    = names_where (λ p, kind_positional p && negb (has_default p)) params
  ∧ optional_loop params []
    = names_where (λ p, kind_positional p && has_default p) params
  ∧ mandatory_loop params [] ++ optional_loop params []
    = names_where kind_positional params.
Proof.
  revert top.
  induction params as [|[name param] params IH]; intros top; simpl; [done|].
  destruct (Nat.ltb_spec (kind_rank (param_kind param)) top); [done|].
  rewrite !names_where_cons.
  destruct (kind_positional param) eqn:Hk; simpl.
  - destruct (has_default param) eqn:Hd; simpl.
    + intros (Hm & Ho & Hn & Hp)%validate_seen_default.
      rewrite optional_loop_acc, Ho, Hn, Hp. done.
    + intros (Hm & Ho & Ha)%IH.
      rewrite mandatory_loop_acc, Hm, Ho. simpl. split; [done|].
      split; [done|]. by rewrite <- Ha, Hm, Ho.
  - intros Hv.
    assert (Hno := validate_no_positional _ _ _ Hv
                     (proj1 (kind_positional_rank param) Hk)).
    destruct (no_positional_contract _ Hno) as (Hm & Ho & Hn).
    rewrite orb_true_r.
    assert (Hall : names_where kind_positional params = []).
    { rewrite <- (Hn (λ _, true)). unfold names_where. f_equal.
      apply filter_ext. intros. by rewrite andb_true_r. }
    rewrite !Hn, Hall. split; [done|].
    assert (Hopt : (if negb (has_default param)
                    then optional_loop params [] else []) = []).
    { by destruct (has_default param). }
    by rewrite Hopt.
Qed.

End MoreArgumentContract.

(** X1: [optionalArgs] of a wrapper, in whatever state, is the names of the
    parameters with a default found before the first parameter that has a
    default and is not positional; parameters without a default are
    skipped, of whatever kind.  Every optional argument has a default and
    is positional. *)
Theorem X1_optionalArgs_characterised :
  ∀ (f : function) (w : World) (history : list use),
    let self := (run history (FontbakeryCallable__init__ f, w)).1 in
    (∃ pre rest,
       parameters f = pre ++ rest
       ∧ Forall (λ np, defaulted_non_positional np = false) pre
       ∧ match rest with
         | [] => True
         | np :: _ => defaulted_non_positional np = true
         end
       ∧ (optionalArgs self).1
         = (List.filter (λ np, has_default np.2) pre).*1)
    ∧ (∀ n, n ∈ (optionalArgs self).1 →
         ∃ p, (n, p) ∈ parameters f
              ∧ has_default p = true ∧ kind_positional p = true).
Proof.
  intros f w history self.
  destruct (wrapper_attributes f w history) as (_ & Ho & _).
  fold self in Ho. rewrite Ho. split.
  - apply optional_loop_split.
  - apply optional_loop_positional.
Qed.

(** X2: for a signature that passes the check of [inspect.Signature],
    [mandatoryArgs] is the positional parameters without a default,
    [optionalArgs] the positional parameters with a default, and [args]
    all positional parameters, each in declaration order. *)
Theorem X2_contract_of_well_formed_signature :
  ∀ (f : function) (w : World) (history : list use),
    well_formed (parameters f) = true →
    let self := (run history (FontbakeryCallable__init__ f, w)).1 in
    (mandatoryArgs self).1
      = names_where (λ p, kind_positional p && negb (has_default p))
          (parameters f)
    ∧ (optionalArgs self).1
      = names_where (λ p, kind_positional p && has_default p) (parameters f)
    ∧ (args self).1 = names_where kind_positional (parameters f).
Proof.
  intros f w history Hwf self.
  destruct (wrapper_attributes f w history) as (Hm & Ho & Ha).
  fold self in Hm, Ho, Ha. rewrite Hm, Ho, Ha.
  by apply (validate_contract _ 0).
Qed.

(** The contract of [(a, b=1, *args, c, d=2, **kw)]. *)
Lemma X2_contract_witness :
  let f := def_function "com_example_check" None sig_mixed in
  let self := (run [Get AoptionalArgs]
                 (FontbakeryCallable__init__ f, empty_world)).1 in
  well_formed (parameters f) = true
  ∧ (mandatoryArgs self).1 = ["a"]
  ∧ (optionalArgs self).1 = ["b"]
  ∧ (args self).1 = ["a"; "b"].
Proof.
  split; [reflexivity|].
  exact (X2_contract_of_well_formed_signature
           (def_function "com_example_check" None sig_mixed)
           empty_world [Get AoptionalArgs] eq_refl).
Defined.

(** X3: [args] of a wrapper is a subsequence of the parameter names, in
    declaration order; so, the names of a signature being distinct, no
    name occurs twice in [args]. *)
Theorem X3_args_is_a_subsequence_of_the_names :
  ∀ (f : function) (w : World) (history : list use),
    let self := (run history (FontbakeryCallable__init__ f, w)).1 in
    (args self).1 `sublist_of` (parameters f).*1
    ∧ (distinct_names (parameters f) → NoDup (args self).1).
Proof.
  intros f w history self.
  destruct (wrapper_attributes f w history) as (_ & _ & Ha).
  fold self in Ha. rewrite Ha.
  split; [apply contract_sublist|].
  intros Hnd. eapply sublist_NoDup; [exact Hnd|apply contract_sublist].
Qed.

(** No name twice in [args] for [(a, b=1, *args, c, d=2, **kw)]. *)
Lemma X3_args_witness :
  let f := def_function "com_example_check" None sig_mixed in
  let self := (run [] (FontbakeryCallable__init__ f, empty_world)).1 in
  distinct_names (parameters f) ∧ NoDup (args self).1.
Proof.
  assert (Hnd : distinct_names sig_mixed).
  { apply (bool_decide_unpack (distinct_names sig_mixed)).
    vm_compute. exact I. }
  split; [exact Hnd|].
  exact (proj2 (X3_args_is_a_subsequence_of_the_names
                  (def_function "com_example_check" None sig_mixed)
                  empty_world []) Hnd).
Defined.

(** X4: a second read of [args], [mandatoryArgs] or [optionalArgs] returns
    what the first read returned and leaves the instance as the first
    read left it, whatever the instance held before. *)
Theorem X4_cached_read_is_idempotent :
  ∀ (self : FontbakeryCallable) (a : attribute),
    getattr (getattr self a).2 a = getattr self a.
Proof.
  intros self a. destruct a; simpl.
  - unfold args, cached_get.
    destruct (cached_args self) as [v|] eqn:E; simpl; [by rewrite E|].
    destruct (mandatoryArgs self) as [m self1].
    destruct (optionalArgs self1) as [o self2]. done.
  - unfold mandatoryArgs, cached_get.
    destruct (cached_mandatoryArgs self) as [v|] eqn:E; simpl;
      [by rewrite E|done].
  - unfold optionalArgs, cached_get.
    destruct (cached_optionalArgs self) as [v|] eqn:E; simpl;
      [by rewrite E|done].
Qed.

Section Calls.

Lemma run_trace f history self w :
  cache_ok self → __wrapped__ self = f →
  trace (run history (self, w)).2 = trace w ++ repeat f (count_calls history)
  ∧ classes (run history (self, w)).2 = classes w.
Proof.
  revert self w. induction history as [|u history IH]; intros self w Hok HW.
  - split; [|done]. simpl. by rewrite app_nil_r.
  - change (run (u :: history) (self, w))
      with (run history (step (self, w) u)).
    destruct (step_spec self w u Hok) as [HW' Hok'].
    assert (Hw : trace (step (self, w) u).2
                 = trace w ++ repeat f (if is_call u then 1 else 0)
                 ∧ classes (step (self, w) u).2 = classes w).
    { destruct u; simpl; rewrite ?app_nil_r; try done.
      unfold FontbakeryCallable__call__, call. rewrite HW.
      by destruct (code f (store w) a). }
    destruct (step (self, w) u) as [self' w'].
    simpl in HW'. destruct (IH self' w' Hok') as [Ht Hc]; [congruence|].
    simpl in Hw. destruct Hw as [Hw1 Hw2].
    rewrite Ht, Hc, Hw1, Hw2. split; [|done].
    rewrite <- app_assoc. f_equal. unfold count_calls. simpl.
    by destruct (is_call u).
Qed.

End Calls.

(** X5: the wrapped function is invoked exactly once for every call of the
    wrapper and never otherwise: after any sequence of reads, injections
    and calls, the record of invocations has grown by one entry of the
    function per call; the classes are untouched. *)
Theorem X5_only_calls_invoke_the_function :
  ∀ (f : function) (w : World) (history : list use),
    let after := run history (FontbakeryCallable__init__ f, w) in
    trace after.2 = trace w ++ repeat f (count_calls history)
    ∧ classes after.2 = classes w.
Proof.
  intros f w history after.
  by apply run_trace; [apply cache_ok_init|].
Qed.

(** ** More on descriptions and documentation                              *)

Section MoreDocDesc.

Lemma split_lines_first_line c s :
  c ≠ LF → ∃ l ls, split_lines (String c s) = String c l :: ls.
Proof.
  intros Hc. simpl.
  destruct (Ascii.eqb c LF) eqn:E; [by apply Ascii.eqb_eq in E|].
  destruct (split_lines s) as [|l ls]; eauto.
Qed.

(** A string is one line when splitting it gives the string itself. *)
Lemma one_line_cons c s :
  c ≠ LF → split_lines s = [s] → split_lines (String c s) = [String c s].
Proof.
  intros Hc Hs. simpl.
  destruct (Ascii.eqb c LF) eqn:E; [by apply Ascii.eqb_eq in E|].
  by rewrite Hs.
Qed.

Lemma one_line_inv c s :
  split_lines (String c s) = [String c s] → c ≠ LF ∧ split_lines s = [s].
Proof.
  simpl. destruct (Ascii.eqb c LF) eqn:E; [done|].
  apply Ascii.eqb_neq in E.
  destruct (split_lines s) as [|l ls] eqn:Hs.
  - by destruct (split_lines_nonempty s).
  - intros [= -> ->]. done.
Qed.

Lemma one_line_app a b :
  split_lines a = [a] → split_lines b = [b] →
  split_lines (a +:+ b) = [a +:+ b].
Proof.
  intros Ha Hb. induction a as [|c a IH]; [done|].
  apply one_line_inv in Ha as [Hc Ha].
  change (String c a +:+ b) with (String c (a +:+ b)).
  apply one_line_cons; auto.
Qed.

Lemma split_lines_one_line s l :
  l ∈ split_lines s → split_lines l = [l].
Proof.
  revert l. induction s as [|c s IH]; intros l; simpl.
  - by intros ->%list_elem_of_singleton.
  - destruct (Ascii.eqb c LF) eqn:E.
    + intros [->|H]%elem_of_cons; [done|by apply IH].
    + apply Ascii.eqb_neq in E.
      destruct (split_lines s) as [|l0 ls] eqn:Hs.
      * by destruct (split_lines_nonempty s).
      * intros [->|H]%elem_of_cons.
        -- apply one_line_cons; [done|]. apply IH. by left.
        -- apply IH. by right.
Qed.

Lemma join_space_one_line parts :
  Forall (λ l, split_lines l = [l]) parts →
  split_lines (join " " parts) = [join " " parts].
Proof.
  induction 1 as [|l parts Hl Hparts IH]; [done|].
  unfold join in *. simpl. destruct parts as [|l' parts]; [done|].
  apply one_line_app; [done|]. by apply (one_line_app " ").
Qed.

Lemma drop_empty_lines_first l ls :
  l ≠ EmptyString → drop_empty_lines (l :: ls) = l :: ls.
Proof. intros H. simpl. by destruct l. Qed.

Lemma consume_description_first l ls :
  l ≠ EmptyString →
  ∃ pre rest, consume_description (l :: ls) [] = (rest, l :: pre).
Proof.
  intros Hl. simpl. apply str_truthy_true in Hl as ->.
  destruct (consume_description_spec ls [l]) as (pre & rest & _ & _ & _ & ->).
  by exists pre, rest.
Qed.

End MoreDocDesc.

(** X6: with an explicit non-empty description, [get_doc_desc] returns it
    as given and does not take the first paragraph out of the
    documentation string: when no documentation is passed and the
    documentation string starts with a non-empty line, the documentation
    is the whole documentation string. *)
Theorem X6_explicit_description_keeps_the_whole_docstring :
  ∀ (f : function) (description : option string) (c : ascii) (s : string),
    truthy description = true →
    docstring f = String c s → c ≠ LF →
    get_doc_desc f description None = (description, Some (docstring f)).
Proof.
  intros f description c s Hd Hdoc Hc.
  unfold get_doc_desc. rewrite docstring_or_empty, Hd. cbn [negb].
  destruct (split_lines_first_line c s Hc) as (l & ls & Hsplit).
  pose proof (join_split_lines (docstring f)) as Hjoin.
  rewrite Hdoc, Hsplit in Hjoin |- *.
  rewrite drop_empty_lines_first by done.
  cbn [truthy negb andb length Nat.eqb]. by rewrite Hjoin.
Qed.

(** An explicit description over the example documentation string. *)
Lemma X6_explicit_description_witness :
  let f := def_function "com_example_check" (Some example_doc) [] in
  truthy (Some "Checks something.") = true
  ∧ get_doc_desc f (Some "Checks something.") None
    = (Some "Checks something.", Some example_doc).
Proof.
  split; [reflexivity|].
  apply (X6_explicit_description_keeps_the_whole_docstring
           (def_function "com_example_check" (Some example_doc) [])
           (Some "Checks something.") "S"%char
           ("hort desc." +:+ NL +:+ NL +:+
            "Long body line 1." +:+ NL +:+ "Long body line 2.")
           eq_refl eq_refl).
  discriminate.
Defined.

(** X7: a description derived from the documentation string is one line:
    it holds no line feed, whatever the documentation string. *)
Theorem X7_derived_description_is_one_line :
  ∀ (f : function) (documentation : option string),
    ∃ d, (get_doc_desc f None documentation).1 = Some d
         ∧ split_lines d = [d].
Proof.
  intros f documentation.
  destruct (get_doc_desc_derived f None documentation eq_refl)
    as (pre & rest & blanks & body & Hsplit & _ & _ & _ & _ & _ & ->).
  eexists. split; [reflexivity|].
  apply join_space_one_line, Forall_forall. intros l Hl.
  apply (split_lines_one_line (docstring f)).
  rewrite Hsplit. apply elem_of_app. by left.
Qed.

(** X8: without a description, the construction of a check fails exactly
    when the documentation string is empty or starts with a line feed. *)
Theorem X8_construction_fails_iff_no_first_line :
  ∀ type_name (f : function) (a : check_args),
    arg_description a = None →
    (is_ok (FontBakeryCheck__init__ type_name f a) = false
     ↔ docstring f = EmptyString ∨ ∃ s, docstring f = String LF s).
Proof.
  intros type_name f a Hd. rewrite init_is_ok, Hd.
  unfold get_doc_desc. rewrite docstring_or_empty. cbn [truthy negb].
  destruct (docstring f) as [|c s] eqn:Hdoc.
  - simpl. split; auto.
  - destruct (ascii_dec c LF) as [->|Hc].
    + simpl. split; eauto.
    + destruct (split_lines_first_line c s Hc) as (l & ls & ->).
      destruct (consume_description_first (String c l) ls)
        as (pre & rest & ->); [done|].
      cbn [fst truthy]. rewrite join_truthy by done.
      split; [done|]. intros [?|[s' [= ? ?]]]; done.
Qed.

(** Construction fails for a function without documentation string. *)
Lemma X8_construction_witness :
  let f := def_function "com_example_check" None [] in
  let a := with_defaults "com.example/check" None None in
  arg_description a = None
  ∧ is_ok (FontBakeryCheck__init__ "FontBakeryCheck" f a) = false.
Proof.
  split; [reflexivity|].
  apply (X8_construction_fails_iff_no_first_line "FontBakeryCheck"
           (def_function "com_example_check" None [])
           (with_defaults "com.example/check" None None) eq_refl).
  left. reflexivity.
Defined.

(** X9: with an explicit non-empty description the construction of a check
    always succeeds, whatever the documentation string: the check has the
    description and the id as given, the conditions as given or the empty
    list, and wraps the function with empty caches. *)
Theorem X9_explicit_description_always_constructs :
  ∀ type_name (f : function) (a : check_args),
    truthy (arg_description a) = true →
    ∃ chk,
      FontBakeryCheck__init__ type_name f a = Ok chk
      ∧ description chk = arg_description a
      ∧ id_ chk = arg_id a
      ∧ conditions chk = default [] (arg_conditions a)
      ∧ callable chk = FontbakeryCallable__init__ f.
Proof.
  intros type_name f a Hd.
  unfold FontBakeryCheck__init__, get_doc_desc.
  rewrite docstring_or_empty, Hd. cbn [negb]. cbn [description].
  rewrite Hd. cbn [negb]. eexists. split; [reflexivity|]. done.
Qed.

(** A described check over an undocumented function. *)
Lemma X9_explicit_description_witness :
  let f := def_function "com_example_check" None [] in
  let a := with_defaults "com.example/check" (Some "Checks something.")
             None in
  truthy (arg_description a) = true
  ∧ ∃ chk,
      FontBakeryCheck__init__ "FontBakeryCheck" f a = Ok chk
      ∧ description chk = arg_description a
      ∧ id_ chk = arg_id a
      ∧ conditions chk = default [] (arg_conditions a)
      ∧ callable chk = FontbakeryCallable__init__ f.
Proof.
  split; [reflexivity|].
  exact (X9_explicit_description_always_constructs "FontBakeryCheck"
           (def_function "com_example_check" None [])
           (with_defaults "com.example/check" (Some "Checks something.")
              None) eq_refl).
Defined.

(** X10: a non-empty documentation that is passed in is returned as it is,
    and [get_doc_desc] returns the empty string as documentation only when
    the empty string was passed in: what it derives from the documentation
    string is never empty. *)
Theorem X10_documentation_is_empty_only_if_passed_empty :
  ∀ (f : function) (description documentation : option string),
    (truthy documentation = true →
     (get_doc_desc f description documentation).2 = documentation)
    ∧ ((get_doc_desc f description documentation).2 = Some EmptyString →
       documentation = Some EmptyString).
Proof.
  intros f description documentation. unfold get_doc_desc.
  rewrite docstring_or_empty.
  set (consumed :=
         if negb (truthy description)
         then let '(doclines, description0) :=
                consume_description (split_lines (docstring f)) [] in
              (doclines, Some (join " " description0))
         else (split_lines (docstring f), description)).
  destruct consumed as [doclines desc]. cbn [snd].
  split.
  - intros ->. done.
  - destruct (truthy documentation) eqn:Ht; cbn [negb andb].
    { intros ->. done. }
    destruct (drop_empty_lines_spec doclines)
      as (blanks & body & _ & _ & Hbody & ->).
    destruct body as [|l body]; cbn [length Nat.eqb negb]; [done|].
    assert (Hl : l ≠ EmptyString) by (intros ->; by apply Hbody).
    pose proof (join_truthy NL l body Hl) as Hjt.
    destruct (join NL (l :: body)) as [|c j]; [done|].
    cbn [str_truthy]. discriminate.
Qed.

(** An empty documentation passed over an empty documentation string comes
    back empty. *)
Lemma X10_documentation_witness :
  let f := def_function "com_example_check" None [] in
  (get_doc_desc f (Some "Checks something.") (Some EmptyString)).2
    = Some EmptyString
  ∧ Some EmptyString = Some EmptyString.
Proof.
  split; [reflexivity|].
  exact (proj2 (X10_documentation_is_empty_only_if_passed_empty
                  (def_function "com_example_check" None [])
                  (Some "Checks something.") (Some EmptyString))
           eq_refl).
Defined.

(** ** More on the injection of globals                                    *)

(** X11: injections compose as [dict.update] does: injecting one mapping
    and then another leaves the world that injecting their union, the
    later mapping winning, leaves; so injecting the same mapping twice is
    injecting it once. *)
Theorem X11_injections_compose :
  ∀ (self : FontbakeryCallable) (m1 m2 : gmap string pyval) (w : World),
    (inject_globals self m2 (inject_globals self m1 w).2).2
      = (inject_globals self (m2 ∪ m1) w).2
    ∧ (inject_globals self m1 (inject_globals self m1 w).2).2
      = (inject_globals self m1 w).2.
Proof.
  intros self m1 m2 w.
  assert (H : ∀ m m', (inject_globals self m' (inject_globals self m w).2).2
                      = (inject_globals self (m' ∪ m) w).2).
  { intros m m'. unfold inject_globals. cbn [snd store classes trace].
    f_equal. rewrite dict_at_insert_eq, insert_insert_eq.
    by rewrite (assoc_L (∪)). }
  split; [apply H|]. rewrite H. by rewrite (idemp_L (∪)).
Qed.

(** X12: the globals are shared by the functions of a module: what is
    injected through the wrapper of one function is what another function
    with the same [__globals__] loads when its wrapper is called, and a
    function with other [__globals__] finds its dictionary as before. *)
Theorem X12_injected_globals_are_shared :
  ∀ (f g : function) (new_globals : gmap string pyval) (w : World)
    (a : list pyval),
    let w' := (inject_globals (FontbakeryCallable__init__ f)
                 new_globals w).2 in
    (FontbakeryCallable__call__ (FontbakeryCallable__init__ g) a w').1
      = (code g (store w') a).2
    ∧ (__globals__ g = __globals__ f →
       ∀ k v, new_globals !! k = Some v →
         load_global (__globals__ g) k (store w') = Ok v)
    ∧ (__globals__ g ≠ __globals__ f →
       dict_at (store w') (__globals__ g)
       = dict_at (store w) (__globals__ g)).
Proof.
  intros f g new_globals w a w'. split; [|split].
  - unfold FontbakeryCallable__call__, call. simpl.
    by destruct (code g _ a).
  - intros Hg k v Hk. unfold load_global, w', inject_globals.
    cbn [snd store FontbakeryCallable__init__ __wrapped__].
    rewrite Hg, dict_at_insert_eq.
    by rewrite (lookup_union_Some_l _ _ _ _ Hk).
  - intros Hg. unfold w', inject_globals.
    cbn [snd store FontbakeryCallable__init__ __wrapped__].
    by apply dict_at_insert_ne.
Qed.

(** [hello = 42] injected through one function of a module and returned
    by another. *)
Lemma X12_shared_globals_witness :
  let w' := (inject_globals
               (FontbakeryCallable__init__ (return_hello 1%positive))
               {["hello" := VInt 42]} empty_world).2 in
  __globals__ (also_returns_hello 1%positive)
    = __globals__ (return_hello 1%positive)
  ∧ ({["hello" := VInt 42]} : gmap string pyval) !! "hello"
    = Some (VInt 42)
  ∧ load_global (__globals__ (also_returns_hello 1%positive)) "hello"
      (store w') = Ok (VInt 42).
Proof.
  split; [reflexivity|]. split; [apply lookup_singleton_eq|].
  exact (proj1 (proj2 (X12_injected_globals_are_shared
                  (return_hello 1%positive)
                  (also_returns_hello 1%positive)
                  {["hello" := VInt 42]} empty_world []))
           eq_refl "hello" (VInt 42) (lookup_singleton_eq _ _)).
Defined.

(** ** More on conditions                                                  *)

Section MoreConditions.

Lemma occurs_append_r n s t : occurs n t = true → occurs n (s +:+ t) = true.
Proof.
  intros H. induction s as [|c s IH]; [done|].
  change (String c s +:+ t) with (String c (s +:+ t)).
  cbn [occurs]. rewrite IH. apply orb_true_r.
Qed.

Lemma register_condition_spec cls_name c f w :
  register_condition cls_name c f w
  = (Ok VNone,
     {| store := store w;
        classes := <[c := <[__name__ f := property_of f]> (class_dict w c)]>
                     (classes w);
        trace := trace w |}).
Proof. reflexivity. Qed.

Lemma class_dict_insert_ne w c c' (d : gmap string cached_property) :
  c ≠ c' →
  class_dict {| store := store w; classes := <[c := d]> (classes w);
                trace := trace w |} c' = class_dict w c'.
Proof.
  intros. unfold class_dict. cbn [classes]. by rewrite lookup_insert_ne.
Qed.

End MoreConditions.

(** X13: [condition] gives a decorator for a class and for nothing else;
    for a function it raises the [TypeError] that names the function; and
    the decorator applied to no argument raises [IndexError] and leaves
    the world, the class included, as it was. *)
Theorem X13_condition_errors :
  (∀ cls, is_ok (condition cls) = true ↔ ∃ name c, cls = OClass name c)
  ∧ (∀ f, ∃ msg, condition (OFunction f) = Err (TypeError msg)
                 ∧ mentions (TypeError msg) (__name__ f) = true)
  ∧ (∀ c w, ∃ msg, decorator c [] w = (Err (IndexError msg), w)).
Proof.
  split; [|split].
  - intros [name c|f|v]; simpl.
    + split; eauto.
    + split; [done|]. by intros (? & ? & ?).
    + split; [done|]. by intros (? & ? & ?).
  - intros f. eexists. split; [reflexivity|].
    unfold mentions. cbn [message].
    apply (occurs_append_r _ "Condition "), occurs_prefix.
  - intros c w. by eexists.
Qed.

(** X14: registering a second condition on a class keeps the first when
    the names differ and replaces it when the names are the same; the
    other attributes of the class and the other classes are as before. *)
Theorem X14_registration_last_wins :
  ∀ (cls_name : string) (c : ref) (f g : function) (w : World),
    let w2 := (register_condition cls_name c g
                 (register_condition cls_name c f w).2).2 in
    class_dict w2 c !! __name__ g = Some (property_of g)
    ∧ (__name__ f ≠ __name__ g →
       class_dict w2 c !! __name__ f = Some (property_of f))
    ∧ (∀ n, n ≠ __name__ f → n ≠ __name__ g →
         class_dict w2 c !! n = class_dict w c !! n)
    ∧ (∀ c', c' ≠ c → class_dict w2 c' = class_dict w c').
Proof.
  intros cls_name c f g w w2. unfold w2.
  rewrite !register_condition_spec. cbn [snd].
  set (w1 := {| store := store w;
                classes := <[c := <[__name__ f := property_of f]>
                                    (class_dict w c)]> (classes w);
                trace := trace w |}).
  assert (H1 : class_dict w1 c
               = <[__name__ f := property_of f]> (class_dict w c))
    by apply class_dict_insert_eq.
  change (store w) with (store w1). change (trace w) with (trace w1).
  change (<[c := <[__name__ f := property_of f]> (class_dict w c)]>
            (classes w)) with (classes w1).
  rewrite (class_dict_insert_eq w1), H1.
  split; [apply lookup_insert_eq|]. split; [|split].
  - intros Hne. rewrite lookup_insert_ne by done. apply lookup_insert_eq.
  - intros n Hf Hg. by rewrite !lookup_insert_ne.
  - intros c' Hc'. rewrite (class_dict_insert_ne w1) by done.
    by apply class_dict_insert_ne.
Qed.

(** Two conditions of different names on one class. *)
Lemma X14_registration_witness :
  let w2 := (register_condition "Font" 2%positive (return_hello 1%positive)
               (register_condition "Font" 2%positive isVariableFont
                  empty_world).2).2 in
  __name__ isVariableFont ≠ __name__ (return_hello 1%positive)
  ∧ class_dict w2 2%positive !! "isVariableFont"
    = Some (property_of isVariableFont).
Proof.
  assert (Hne : __name__ isVariableFont
                ≠ __name__ (return_hello 1%positive)) by discriminate.
  split; [exact Hne|].
  exact (proj1 (proj2 (X14_registration_last_wins "Font" 2%positive
                         isVariableFont (return_hello 1%positive)
                         empty_world)) Hne).
Defined.

(** X15: a value an instance has computed stays: when a read has returned
    a value, registering another function afterwards, under the same name
    or another, changes no later read of that instance; they return the
    value and invoke nothing. *)
Theorem X15_cached_value_survives_registration :
  ∀ (cls_name : string) (c d : ref) (f g : function) (w0 w2 : World)
    (v : pyval) (n : nat),
    let w1 := (register_condition cls_name c f w0).2 in
    instance_getattr c d (__name__ f) w1 = (Ok v, w2) →
    let w3 := (register_condition cls_name c g w2).2 in
    let reads := read_times n c d (__name__ f) w3 in
    reads.1 = repeat (Ok v) n
    ∧ trace reads.2 = trace w2.
Proof.
  intros cls_name c d f g w0 w2 v n w1 Hread w3 reads.
  destruct (instance_getattr_returns c d f w1 v w2) as [Hd _];
    [apply decorator_installs|done|].
  unfold reads. rewrite (read_times_cached n c d _ w3 v); [done|].
  unfold w3. by rewrite register_condition_spec.
Qed.

(** [isVariableFont] read once, then replaced by a function that would
    return [False]: the instance still reads [True]. *)
Lemma X15_cached_value_witness :
  let w1 := (register_condition "Font" 2%positive isVariableFont
               empty_world).2 in
  let w2 := (instance_getattr 2%positive 3%positive "isVariableFont" w1).2 in
  let w3 := (register_condition "Font" 2%positive isVariableFont' w2).2 in
  let reads := read_times 2 2%positive 3%positive "isVariableFont" w3 in
  instance_getattr 2%positive 3%positive "isVariableFont" w1
    = (Ok (VBool true), w2)
  ∧ reads.1 = [Ok (VBool true); Ok (VBool true)]
  ∧ trace reads.2 = trace w2.
Proof.
  split; [vm_compute; reflexivity|].
  exact (X15_cached_value_survives_registration "Font" 2%positive 3%positive
           isVariableFont isVariableFont' empty_world _ (VBool true) 2
           eq_refl).
Defined.

(** ** Labels and the check factory                                        *)

Section Labels.

Lemma append_cancel_l s a b : s +:+ a = s +:+ b → a = b.
Proof. induction s as [|c s IH]; simpl; [done|]. intros [= H]. auto. Qed.

Lemma append_cancel_last c a b :
  a +:+ String c EmptyString = b +:+ String c EmptyString → a = b.
Proof.
  revert b. induction a as [|x a IH]; intros [|y b]; simpl; try done.
  - intros [= _ H]. by destruct b.
  - intros [= _ H]. by destruct a.
  - intros [= -> H]. f_equal. by apply IH.
Qed.

End Labels.

(** X16: the label of a check is made of the class name and the id alone,
    whatever [name] was passed, and labels of one class tell ids apart:
    two checks with the same label have the same id. *)
Theorem X16_repr_shows_the_id :
  (∀ type_name (f : function) (a : check_args) (chk : FontBakeryCheck),
     FontBakeryCheck__init__ type_name f a = Ok chk →
     FontBakeryCheck__repr__ type_name chk
     = "<" +:+ type_name +:+ ":" +:+ arg_id a +:+ ">")
  ∧ (∀ type_name (chk1 chk2 : FontBakeryCheck),
       FontBakeryCheck__repr__ type_name chk1
       = FontBakeryCheck__repr__ type_name chk2 →
       id_ chk1 = id_ chk2).
Proof.
  split.
  - intros type_name f a chk Hinit. unfold FontBakeryCheck__repr__.
    unfold FontBakeryCheck__init__ in Hinit.
    destruct (get_doc_desc f (arg_description a) (arg_documentation a))
      as [desc docu]. cbn [description] in Hinit.
    destruct (truthy desc); simpl in Hinit; [|done].
    by injection Hinit as <-.
  - intros type_name chk1 chk2. unfold FontBakeryCheck__repr__.
    intros H%append_cancel_l%append_cancel_l%append_cancel_l.
    by apply append_cancel_last in H.
Qed.

(** The label of the check of the example. *)
Lemma X16_repr_witness :
  let f := def_function "com_example_check" (Some example_doc) [] in
  let a := with_defaults "com.example/check" None None in
  ∃ chk,
    FontBakeryCheck__init__ "FontBakeryCheck" f a = Ok chk
    ∧ FontBakeryCheck__repr__ "FontBakeryCheck" chk
      = "<FontBakeryCheck:com.example/check>".
Proof.
  eexists. split; [reflexivity|].
  exact (proj1 X16_repr_shows_the_id "FontBakeryCheck"
           (def_function "com_example_check" (Some example_doc) [])
           (with_defaults "com.example/check" None None) _ eq_refl).
Defined.

(** X17: the decorator made by [check] either raises the [TypeError] that
    names [FontBakeryCheck], or returns a check that wraps the decorated
    function: whatever is done with it, calling it is calling the
    function, and for a signature that passes the check of
    [inspect.Signature] its [args] are the positional parameters. *)
Theorem X17_check_wraps_the_function :
  ∀ (a : check_args) (f : function),
    match check a f with
    | Err e => e = TypeError "FontBakeryCheck needs a description."
    | Ok chk =>
        ∀ (history : list use) (w : World),
          let self := (run history (callable chk, w)).1 in
          __wrapped__ self = f
          ∧ (∀ v, FontbakeryCallable__call__ self v = call f v)
          ∧ (well_formed (parameters f) = true →
             (args self).1 = names_where kind_positional (parameters f))
    end.
Proof.
  intros a f. unfold check. rewrite init_result.
  destruct (truthy (get_doc_desc f (arg_description a)
                      (arg_documentation a)).1) eqn:Ht; [|done].
  destruct (FontBakeryCheck__init__ "FontBakeryCheck" f a) as [chk|e] eqn:Hi.
  - assert (Hc : callable chk = FontbakeryCallable__init__ f).
    { unfold FontBakeryCheck__init__ in Hi.
      destruct (get_doc_desc f (arg_description a) (arg_documentation a))
        as [desc docu]. cbn [description] in Hi.
      destruct (truthy desc); simpl in Hi; [|done]. by injection Hi as <-. }
    intros history w. rewrite Hc.
    destruct (run_spec history _ w (cache_ok_init f)) as [HW _].
    simpl in HW. split; [done|]. split.
    + intros v. unfold FontbakeryCallable__call__. by rewrite HW.
    + intros Hwf.
      destruct (wrapper_attributes f w history) as (_ & _ & ->).
      by apply (validate_contract _ 0).
  - pose proof (init_is_ok "FontBakeryCheck" f a) as Hok.
    rewrite Hi, Ht in Hok. discriminate.
Qed.

(** The check made of the example function with signature
    [(a, b=1, *args, c, d=2, **kw)]. *)
Lemma X17_check_witness :
  let f := def_function "com_example_check" (Some example_doc) sig_mixed in
  let a := with_defaults "com.example/check" None None in
  ∃ chk,
    check a f = Ok chk
    ∧ well_formed (parameters f) = true
    ∧ (args (run [Call []] (callable chk, empty_world)).1).1 = ["a"; "b"].
Proof.
  eexists. split; [reflexivity|]. split; [reflexivity|].
  exact (proj2 (proj2 (X17_check_wraps_the_function
                  (with_defaults "com.example/check" None None)
                  (def_function "com_example_check" (Some example_doc)
                     sig_mixed)
                  [Call []] empty_world)) eq_refl).
Defined.
